(** * UGC ad generator: retry executor, rate limiter, job poller,
      cost ledger and generation pipeline

    A shallow embedding of the TypeScript sources
      - utils/retry.ts          (isRetryableError, calculateBackoffDelay, withRetry)
      - utils/cost-tracker.ts   (SORA2_PRICING, CostTracker)
      - api/sora2-client.ts     (waitForRateLimit, pollJobStatus, generate, generateBatch)
      - prompts/ugc-templates.ts (buildPrompt, buildVariedPrompt)
      - core/UGCAdGenerator.ts  (createGenerationPlan, generate)
      - validators/video-validator.ts (validate)
      - utils/logger.ts         (Logger.error, as far as it can throw)

    Conventions.
      - JavaScript numbers that hold money, scores, delays and durations are
        exact rationals [Q]; millisecond clock readings ([Date.now()]) are
        integers [Z]; loop counters and array indices are [nat].
      - A promise that has settled is a value of [Settled]: fulfilled with a
        value or rejected with the thrown value.
      - Side effects that matter (sleeping, calling the wrapped operation,
        logging) are recorded as a list of events, in program order.
      - The world outside the program (the wrapped operation, the remote
        service, the clock) is an explicit argument. *)

From Stdlib Require Import ZArith QArith Qminmax Qpower List String Ascii Bool Lia Lqa Arith.
From Stdlib Require Import DecimalString DecimalNat Qround.
From Equations Require Import Equations.
Import ListNotations.

Set Implicit Arguments.

(* ================================================================== *)
(** * Part I: the program                                              *)
(* ================================================================== *)

(** ** JavaScript values shared by all components *)

(** What a [throw] can carry: an [Error] instance (with its [name] and
    [message]) or any other value. Of a value that is not an [Error]
    instance the program reads [String(v)], and its logger passes the
    value to [JSON.stringify]: [NonError] is a value [JSON.stringify]
    accepts (a string, a number, a plain object, [undefined], ...),
    [Unserializable] one on which it throws a [TypeError] with message
    [jsonError] (a BigInt, an object that refers to itself). *)
Inductive Thrown : Type :=
| ErrorObj (name message : string)
| NonError (shown : string)
| Unserializable (shown jsonError : string).

(** [new Error(message)] *)
Definition newError (message : string) : Thrown := ErrorObj "Error" message.

(** [e instanceof Error ? e.message : String(e)] *)
Definition messageOrString (e : Thrown) : string :=
  match e with
  | ErrorObj _ m => m
  | NonError s => s
  | Unserializable s _ => s
  end.

(** utils/logger.ts, [logger.error(message, error)]: the line is built by
    [JSON.stringify({ error: error.message, stack: error.stack })] for an
    [Error] instance and by [JSON.stringify({ error })] otherwise, before
    anything is printed. The result is what the call throws, if it
    throws. *)
Definition loggerErrorThrows (error : Thrown) : option Thrown :=
  match error with
  | Unserializable _ jsonError => Some (ErrorObj "TypeError" jsonError)
  | _ => None
  end.

Inductive Settled (A : Type) : Type :=
| Fulfilled (value : A)
| Rejected (reason : Thrown).
Arguments Fulfilled {A} value.
Arguments Rejected {A} reason.

Inductive LogLevel : Type := DEBUG | INFO | WARN | ERROR.

(** Decimal rendering of a counter, as a template literal does. *)
Definition showNat (n : nat) : string := NilEmpty.string_of_uint (Nat.to_uint n).

(** [s.includes(sub)] *)
Fixpoint includes (s sub : string) : bool :=
  String.prefix sub s ||
  match s with
  | EmptyString => false
  | String _ rest => includes rest sub
  end.

(** [a[i]] on an array: [None] stands for [undefined]. *)
Definition at_index {A} (a : list A) (i : nat) : option A := nth_error a i.

(** [a[i % a.length]]: the remainder by zero is NaN, and [a[NaN]] is
    [undefined]. *)
Definition at_mod {A} (a : list A) (i : nat) : option A :=
  match List.length a with
  | O => None
  | S _ => nth_error a (i mod List.length a)
  end.

(** [a || b] on optional strings: [undefined] and the empty string are
    falsy. *)
Definition truthy (s : option string) : option string :=
  match s with
  | Some EmptyString => None
  | other => other
  end.

Definition orElse (s : option string) (fallback : string) : string :=
  match truthy s with
  | Some v => v
  | None => fallback
  end.

(* ------------------------------------------------------------------ *)
(** ** types.ts *)

Inductive AspectRatio : Type := Ratio16x9 | Ratio9x16 | Ratio1x1 | Ratio4x5.

Definition aspectRatioString (r : AspectRatio) : string :=
  match r with
  | Ratio16x9 => "16:9"
  | Ratio9x16 => "9:16"
  | Ratio1x1 => "1:1"
  | Ratio4x5 => "4:5"
  end.

Inductive UGCStyle : Type :=
| casual | testimonial | tutorial | unboxing | lifestyle | comparison.

Definition styleString (s : UGCStyle) : string :=
  match s with
  | casual => "casual"
  | testimonial => "testimonial"
  | tutorial => "tutorial"
  | unboxing => "unboxing"
  | lifestyle => "lifestyle"
  | comparison => "comparison"
  end.

Inductive Resolution : Type := R720p | R1080p.

Definition resolutionString (r : Resolution) : string :=
  match r with R720p => "720p" | R1080p => "1080p" end.

Inductive Fps : Type := Fps24 | Fps30 | Fps60.

Inductive JobStatus : Type := queued | processing | completed | failed.

Record Sora2GenerationRequest : Type := {
  req_prompt : string;
  req_duration : Q;
  req_aspectRatio : option AspectRatio;
  req_resolution : Resolution;
  req_fps : Fps;
  req_sourceVideoUrl : option string
}.

Record Sora2GenerationResponse : Type := {
  resp_jobId : string;
  resp_status : JobStatus;
  resp_videoUrl : option string;
  resp_thumbnailUrl : option string;
  resp_error : option string;
  resp_progress : option Q
}.

(* ------------------------------------------------------------------ *)
(** ** utils/retry.ts *)

Module Retry.

Record RetryConfig : Type := {
  maxRetries : nat;
  initialDelay : Q;
  maxDelay : Q;
  backoffMultiplier : Q;
  retryableErrors : list string
}.

Definition defaultRetryConfig : RetryConfig := {|
  maxRetries := 3;
  initialDelay := 30000;
  maxDelay := 300000;
  backoffMultiplier := 2;
  retryableErrors :=
    ["RateLimitExceeded"; "APITimeout"; "GenerationFailed"; "NetworkError"]%string
|}.

Definition isRetryableError (error : Thrown) (retryable : list string) : bool :=
  match error with
  | ErrorObj name message =>
      existsb (fun retryableError =>
                 includes message retryableError || String.eqb name retryableError)
              retryable
  | NonError _ => false
  | Unserializable _ _ => false
  end.

(** [Math.min(initialDelay * Math.pow(backoffMultiplier, attempt), maxDelay)] *)
Definition calculateBackoffDelay (attempt : nat) (config : RetryConfig) : Q :=
  Qmin (initialDelay config * backoffMultiplier config ^ Z.of_nat attempt)
       (maxDelay config).

(** What [withRetry] does to the outside, in order. *)
Inductive Event : Type :=
| ESleep (ms : Q)          (* await sleep(ms) *)
| ECall (attempt : nat)    (* await fn(), in loop iteration [attempt] *)
| ELog (level : LogLevel). (* logger.info / warn / error *)

(** The error thrown after the loop. *)
Definition exhaustedError (config : RetryConfig) (context : string)
    (lastError : option Thrown) : Thrown :=
  newError (context ++ ": " ++ showNat (maxRetries config)
            ++ "回のリトライ後も失敗: "
            ++ match lastError with
               | Some e => messageOrString e
               | None => "undefined"
               end).

(** [logger.error(..., error); throw error] in the branch of an error that
    is not retryable: when the logger throws, its exception leaves the
    [catch] block in place of [error], and no line is printed. *)
Definition reportFatal (error : Thrown) : list Event * Thrown :=
  match loggerErrorThrows error with
  | Some failure => ([], failure)
  | None => ([ELog ERROR], error)
  end.

(** The [for (let attempt = 0; attempt <= config.maxRetries; attempt++)]
    loop. [remaining] counts the iterations the loop condition still
    admits; [fn attempt] is how the operation settles when it is invoked
    in iteration [attempt]. The two other logger calls of the [catch]
    block are reached with a retryable error only, which is an [Error]
    instance, and print. *)
Fixpoint retryLoop {T} (fn : nat -> Settled T) (config : RetryConfig)
    (context : string) (remaining attempt : nat) (lastError : option Thrown)
    : list Event * Settled T :=
  match remaining with
  | O => ([], Rejected (exhaustedError config context lastError))
  | S remaining' =>
      let before :=
        if (0 <? attempt)%nat
        then [ELog INFO; ESleep (calculateBackoffDelay (attempt - 1) config)]
        else [] in
      match fn attempt with
      | Fulfilled value => (before ++ [ECall attempt], Fulfilled value)
      | Rejected error =>
          if negb (isRetryableError error (retryableErrors config)) then
            (before ++ ECall attempt :: fst (reportFatal error),
             Rejected (snd (reportFatal error)))
          else if (attempt =? maxRetries config)%nat then
            (before ++ [ECall attempt; ELog ERROR],
             Rejected (exhaustedError config context (Some error)))
          else
            let (later, result) :=
              retryLoop fn config context remaining' (S attempt) (Some error) in
            (before ++ [ECall attempt; ELog WARN] ++ later, result)
      end
  end.

Definition withRetry {T} (fn : nat -> Settled T) (config : RetryConfig)
    (context : string) : list Event * Settled T :=
  retryLoop fn config context (S (maxRetries config)) 0 None.

(** Projections of a trace. *)
Definition isLog (e : Event) : bool :=
  match e with ELog _ => true | _ => false end.

Definition actions (trace : list Event) : list Event :=
  filter (fun e => negb (isLog e)) trace.

Definition sleeps (trace : list Event) : list Q :=
  flat_map (fun e => match e with ESleep ms => [ms] | _ => [] end) trace.

Definition calls (trace : list Event) : list nat :=
  flat_map (fun e => match e with ECall k => [k] | _ => [] end) trace.

(** *** withBatchRetry *)

Record BatchOutcome (T : Type) : Type := {
  batchSuccessful : list T;
  batchFailed : list (nat * Thrown)
}.

(** [`Task ${index + 1}`] *)
Definition taskLabel (index : nat) : string := "Task " ++ showNat (index + 1).

(** [Promise.allSettled(tasks.map((task, index) => withRetry(...)))]:
    every task runs under [withRetry] with its own label; [tasks] holds,
    for each task, how its successive invocations settle. *)
Fixpoint settleAll {T} (tasks : list (nat -> Settled T)) (config : RetryConfig)
    (index : nat) : list (Settled T) :=
  match tasks with
  | [] => []
  | task :: later =>
      snd (withRetry task config (taskLabel index))
      :: settleAll later config (S index)
  end.

(** [results.forEach((result, index) => ...)] *)
Fixpoint collectSettled {T} (results : list (Settled T)) (index : nat)
    (acc : BatchOutcome T) : BatchOutcome T :=
  match results with
  | [] => acc
  | Fulfilled value :: later =>
      collectSettled later (S index)
        {| batchSuccessful := batchSuccessful acc ++ [value]; batchFailed := batchFailed acc |}
  | Rejected reason :: later =>
      collectSettled later (S index)
        {| batchSuccessful := batchSuccessful acc;
           batchFailed := batchFailed acc ++ [(index, reason)] |}
  end.

Definition withBatchRetry {T} (tasks : list (nat -> Settled T))
    (config : RetryConfig) : BatchOutcome T :=
  collectSettled (settleAll tasks config 0) 0 {| batchSuccessful := []; batchFailed := [] |}.

(** Vocabulary for the backoff schedule. *)

(** The delay before the [k]-th retry (1-indexed), as a formula in [k]. *)
Definition backoffOfRetry (config : RetryConfig) (k : nat) : Q :=
  Qmin (initialDelay config * backoffMultiplier config ^ (Z.of_nat k - 1))
       (maxDelay config).

(** First try, then [k] retries, each preceded by its own delay. *)
Definition retrySchedule (config : RetryConfig) (k : nat) : list Event :=
  ECall 0 ::
  flat_map (fun j => [ESleep (backoffOfRetry config j); ECall j]) (seq 1 k).

End Retry.

(* ------------------------------------------------------------------ *)
(** ** utils/cost-tracker.ts *)

Module CostTracker.

Record Pricing : Type := {
  perSecond : Resolution -> Q;
  minimumCharge : Q;
  defaultMonthlyBudget : Q
}.

Definition SORA2_PRICING : Pricing := {|
  perSecond := fun resolution =>
    match resolution with
    | R720p => 1 # 2   (* 0.5 *)
    | R1080p => 1      (* 1.0 *)
    end;
  minimumCharge := 5;
  defaultMonthlyBudget := 5000
|}.

Record CostEntry : Type := {
  timestamp : Z;
  amount : Q;
  description : string
}.

(** The fields of a [CostTracker] instance. *)
Record State : Type := {
  totalCost : Q;
  monthlyBudget : Q;
  costs : list CostEntry
}.

(** [new CostTracker(monthlyBudget)] *)
Definition create (budget : Q) : State :=
  {| totalCost := 0; monthlyBudget := budget; costs := [] |}.

Definition calculateVideoCost (duration : Q) (resolution : Resolution) : Q :=
  let perSecondCost := perSecond SORA2_PRICING resolution in
  let calculatedCost := duration * perSecondCost in
  Qmax calculatedCost (minimumCharge SORA2_PRICING).

(** [(totalCost / monthlyBudget) * 100 >= 90]. A zero budget makes the
    quotient +Infinity for a positive total (the test holds) and NaN or
    -Infinity otherwise (the test fails). The quotient and the product
    are exact here and rounded in the program: the two tests agree
    except for totals within rounding of 90% of the budget. *)
Definition usageAtLeast90 (st : State) : bool :=
  if Qeq_bool (monthlyBudget st) 0
  then negb (Qle_bool (totalCost st) 0)
  else Qle_bool 90 (totalCost st / monthlyBudget st * 100).

(** [recordCost(amount, description)], called when the clock reads [now]:
    the new fields and the levels of the log lines written. *)
Definition recordCost (now : Z) (amt : Q) (desc : string) (st : State)
    : State * list LogLevel :=
  let st' := {|
    totalCost := totalCost st + amt;
    monthlyBudget := monthlyBudget st;
    costs := costs st ++ [{| timestamp := now; amount := amt; description := desc |}]
  |} in
  (st', INFO :: (if usageAtLeast90 st' then [WARN] else [])).

Definition getTotalCost (st : State) : Q := totalCost st.

Definition getRemainingBudget (st : State) : Q :=
  Qmax 0 (monthlyBudget st - totalCost st).

Definition isOverBudget (st : State) : bool :=
  Qle_bool (monthlyBudget st) (totalCost st).

Definition getCostHistory (st : State) : list CostEntry := costs st.

Definition reset (st : State) : State :=
  {| totalCost := 0; monthlyBudget := monthlyBudget st; costs := [] |}.

(** The calls a client can make on a tracker. The queries
    ([getTotalCost], [getRemainingBudget], [isOverBudget], [getSummary],
    [getCostHistory], [calculateVideoCost], [estimateRemainingVideos])
    assign no field. *)
Inductive Op : Type :=
| OpRecordCost (now : Z) (amt : Q) (desc : string)
| OpReset
| OpQuery.

Definition step (st : State) (op : Op) : State :=
  match op with
  | OpRecordCost now amt desc => fst (recordCost now amt desc st)
  | OpReset => reset st
  | OpQuery => st
  end.

Definition run (ops : list Op) (st : State) : State := fold_left step ops st.

(** Vocabulary for the ledger invariant. *)

(** The amounts of a history added up in the order they were recorded. *)
Definition sumAmounts (history : list CostEntry) : Q :=
  fold_left (fun acc entry => acc + amount entry) history 0.

Definition isReset (op : Op) : bool :=
  match op with OpReset => true | _ => false end.

Definition isRecord (op : Op) : bool :=
  match op with OpRecordCost _ _ _ => true | _ => false end.

(** The calls made after the last [reset] (all of them if there is none). *)
Fixpoint sinceLastReset (ops : list Op) : list Op :=
  match ops with
  | [] => []
  | op :: rest =>
      if existsb isReset rest then sinceLastReset rest
      else if isReset op then rest
      else op :: rest
  end.

Definition recordsSinceReset (ops : list Op) : nat :=
  List.length (filter isRecord (sinceLastReset ops)).

Definition ledger_consistent (st : State) : Prop :=
  getTotalCost st = sumAmounts (getCostHistory st).

End CostTracker.

(* ------------------------------------------------------------------ *)
(** ** api/sora2-client.ts *)

Module Sora2.
Import Retry.

Record RateLimitSettings : Type := {
  requestsPerMinute : nat;
  pollingInterval : Z;
  generationTimeout : Z
}.

Definition RATE_LIMIT : RateLimitSettings := {|
  requestsPerMinute := 3;
  pollingInterval := 10000;
  generationTimeout := 300000
|}.

(** *** waitForRateLimit

    [now] is the reading of [Date.now()] on entry and [requestTimestamps]
    the field of the client. The result is the field after the call and
    the time slept, if the call slept. *)
Definition waitForRateLimit (now : Z) (requestTimestamps : list Z)
    : list Z * option Z :=
  let oneMinuteAgo := (now - 60000)%Z in
  let kept := filter (fun timestamp => (oneMinuteAgo <? timestamp)%Z)
                     requestTimestamps in
  let slept :=
    if (requestsPerMinute RATE_LIMIT <=? List.length kept)%nat then
      match kept with
      | oldestRequest :: _ =>
          let waitTime := (60000 - (now - oldestRequest))%Z in
          if (0 <? waitTime)%Z then Some waitTime else None
      | [] => None
      end
    else None in
  (kept ++ [now], slept).

(** A caller that acquires again and again, one call after the other:
    the [i]-th call is entered [gaps_i] ms after the previous one returned
    and returns when its sleep, if any, is over. The result is the field of
    the client, the clock, and the clock readings at which the calls
    returned. *)
Fixpoint acquireAll (gaps : list Z) (clock : Z) (requestTimestamps : list Z)
    (returned : list Z) : list Z * Z * list Z :=
  match gaps with
  | [] => (requestTimestamps, clock, returned)
  | gap :: later =>
      let now := (clock + gap)%Z in
      let (stamps, slept) := waitForRateLimit now requestTimestamps in
      let wake := match slept with Some ms => (now + ms)%Z | None => now end in
      acquireAll later wake stamps (returned ++ [wake])
  end.

(** How many of the given instants lie in the window of 60000 ms that
    ends at [t] (exclusive at its old end, as the filter of the source). *)
Definition inWindow (t : Z) (instants : list Z) : nat :=
  List.length (filter (fun x => ((t - 60000 <? x) && (x <=? t))%Z) instants).

(** The stamps the filter of [waitForRateLimit] keeps. *)
Definition keptStamps (now : Z) (requestTimestamps : list Z) : list Z :=
  filter (fun timestamp => (now - 60000 <? timestamp)%Z) requestTimestamps.

(** *** pollJobStatus *)

(** What the service answers to a status query. *)
Inductive StatusReply : Type :=
| StatusFetchFails (e : Thrown)       (* fetch or res.json() rejects *)
| StatusNotOk (statusText : string)   (* !res.ok *)
| StatusOk (data_status : JobStatus)
           (video_url thumbnail_url error : option string)
           (progress : option Q).

(** One remote job as the poller meets it: the answer to the [k]-th
    status query, the time that query takes, and by how much the [k]-th
    sleep overruns the interval asked for. Durations are natural numbers
    of milliseconds: the clock does not run backwards and a timer does
    not fire early. *)
Record RemoteJob : Type := {
  statusReply : nat -> StatusReply;
  statusLatency : nat -> N;
  oversleep : nat -> N
}.

Definition getJobStatus (job : RemoteJob) (jobId : string) (k : nat)
    : Settled Sora2GenerationResponse :=
  match statusReply job k with
  | StatusFetchFails e => Rejected e
  | StatusNotOk statusText =>
      Rejected (newError ("Failed to get job status: " ++ statusText))
  | StatusOk st video_url thumbnail_url error progress =>
      Fulfilled {| resp_jobId := jobId;
                   resp_status := st;
                   resp_videoUrl := video_url;
                   resp_thumbnailUrl := thumbnail_url;
                   resp_error := error;
                   resp_progress := progress |}
  end.

Inductive PollEvent : Type :=
| PQuery (k : nat)    (* await this.getJobStatus(jobId), the k-th one *)
| PSleep (ms : Z).    (* await sleep(ms) *)

Record PollRun : Type := {
  pollTrace : list PollEvent;
  pollFinish : Z;
  pollOutcome : Settled Sora2GenerationResponse
}.

Definition timeoutError (jobId : string) : Thrown :=
  newError ("APITimeout: ジョブ " ++ jobId ++ " がタイムアウトしました").

Definition generationFailedError (status : Sora2GenerationResponse) : Thrown :=
  newError ("GenerationFailed: " ++ orElse (resp_error status) "不明なエラー").

(** Status queries that can still be issued when [elapsed] ms have gone. *)
Definition pollsLeft (elapsed : Z) : nat :=
  Z.to_nat ((generationTimeout RATE_LIMIT - elapsed) / pollingInterval RATE_LIMIT + 1).

(** The [while (true)] loop of [pollJobStatus], entered with the clock at
    [now] for its [k]-th round. The [progress] variable of the source only
    feeds a log line and is left out with it. *)
Equations? pollLoop (job : RemoteJob) (jobId : string) (startTime now : Z) (k : nat)
    : PollRun by wf (pollsLeft (now - startTime)) lt :=
  pollLoop job jobId startTime now k
    with Z_lt_dec (generationTimeout RATE_LIMIT) (now - startTime) => {
    | left _ :=
        {| pollTrace := []; pollFinish := now;
           pollOutcome := Rejected (timeoutError jobId) |};
    | right _ with getJobStatus job jobId k => {
        | Rejected e :=
            {| pollTrace := [PQuery k];
               pollFinish := now + Z.of_N (statusLatency job k);
               pollOutcome := Rejected e |};
        | Fulfilled status with resp_status status => {
            | completed :=
                {| pollTrace := [PQuery k];
                   pollFinish := now + Z.of_N (statusLatency job k);
                   pollOutcome := Fulfilled status |};
            | failed :=
                {| pollTrace := [PQuery k];
                   pollFinish := now + Z.of_N (statusLatency job k);
                   pollOutcome := Rejected (generationFailedError status) |};
            | _ :=
                let later :=
                  pollLoop job jobId startTime
                    (now + Z.of_N (statusLatency job k)
                     + pollingInterval RATE_LIMIT + Z.of_N (oversleep job k))
                    (S k) in
                {| pollTrace :=
                     PQuery k :: PSleep (pollingInterval RATE_LIMIT) :: pollTrace later;
                   pollFinish := pollFinish later;
                   pollOutcome := pollOutcome later |}
          }
      }
  }.
Proof.
  all: unfold pollsLeft in *; cbn [generationTimeout pollingInterval RATE_LIMIT] in *.
  all: pose proof (N2Z.is_nonneg (statusLatency job k)).
  all: pose proof (N2Z.is_nonneg (oversleep job k)).
  all: Z.div_mod_to_equations; lia.
Qed.

(** [pollJobStatus(jobId)], entered when the clock reads [now]. *)
Definition pollJobStatus (job : RemoteJob) (jobId : string) (now : Z) : PollRun :=
  pollLoop job jobId now now 0.

Definition queries (trace : list PollEvent) : list nat :=
  flat_map (fun e => match e with PQuery k => [k] | _ => [] end) trace.

(** [n] rounds of query-then-sleep, numbered from [k]. *)
Definition pollRounds (k n : nat) : list PollEvent :=
  flat_map (fun j => [PQuery j; PSleep (pollingInterval RATE_LIMIT)]) (seq k n).

(** *** generateVideo, generate, generateBatch *)

(** What the service answers to a submission. *)
Inductive SubmitReply : Type :=
| SubmitFetchFails (e : Thrown)                  (* fetch or res.json() rejects *)
| SubmitNotOk (httpStatus : nat) (errorJson : string)
                                                 (* !res.ok; JSON.stringify(error) *)
| SubmitOk (id job_id : option string).

(** The service as one item of a batch meets it: the answer to its
    [k]-th submission attempt, the time its submission phase takes after
    the rate limiter lets it through (backoff sleeps and network time),
    and the job it then polls. *)
Record TaskWorld : Type := {
  submitReply : nat -> SubmitReply;
  submitDuration : N;
  remoteJob : RemoteJob
}.

(** The operation [generateVideo] hands to [withRetry]. *)
Definition submitOnce (reply : SubmitReply) : Settled (option string * option string) :=
  match reply with
  | SubmitFetchFails e => Rejected e
  | SubmitNotOk httpStatus errorJson =>
      if (httpStatus =? 429)%nat then Rejected (newError "RateLimitExceeded")
      else if ((httpStatus =? 408) || (httpStatus =? 504))%nat
           then Rejected (newError "APITimeout")
      else Rejected (newError ("Sora2 API Error: " ++ errorJson))
  | SubmitOk id job_id => Fulfilled (id, job_id)
  end.

(** The fields of a client that change or are read after construction. *)
Record Client : Type := {
  retryConfig : RetryConfig;
  requestTimestamps : list Z
}.

(** [new Sora2APIClient(apiKey, retryConfig)] *)
Definition createClient (apiKey : string) (config : option RetryConfig)
    : Settled Client :=
  match apiKey with
  | EmptyString => Rejected (newError "OPENAI_API_KEY が設定されていません")
  | _ =>
      Fulfilled {| retryConfig := match config with
                                  | Some c => c
                                  | None => defaultRetryConfig
                                  end;
                   requestTimestamps := [] |}
  end.

(** How one task of a batch ends: the client after it, the clock reading
    when its promise settles, and how it settles. *)
Record TaskRun (A : Type) : Type := {
  clientAfter : Client;
  settledAt : Z;
  settledAs : Settled A
}.

Definition generateVideo (client : Client) (world : TaskWorld) (now : Z)
    (request : Sora2GenerationRequest) : TaskRun string :=
  let (stamps, slept) := waitForRateLimit now (requestTimestamps client) in
  let client' := {| retryConfig := retryConfig client; requestTimestamps := stamps |} in
  let admitted := match slept with Some ms => (now + ms)%Z | None => now end in
  let done := (admitted + Z.of_N (submitDuration world))%Z in
  let response :=
    snd (withRetry (fun k => submitOnce (submitReply world k))
                   (retryConfig client) "Sora2 API generateVideo") in
  {| clientAfter := client';
     settledAt := done;
     settledAs :=
       match response with
       | Rejected e => Rejected e
       | Fulfilled (id, job_id) =>
           match truthy id, truthy job_id with
           | Some jobId, _ => Fulfilled jobId
           | None, Some jobId => Fulfilled jobId
           | None, None =>
               Rejected (newError "Sora2 API: ジョブIDが取得できませんでした")
           end
       end |}.

(** [generate(request)]: submit, then poll. *)
Definition generate (client : Client) (world : TaskWorld) (now : Z)
    (request : Sora2GenerationRequest) : TaskRun Sora2GenerationResponse :=
  let submitted := generateVideo client world now request in
  match settledAs submitted with
  | Rejected e =>
      {| clientAfter := clientAfter submitted;
         settledAt := settledAt submitted;
         settledAs := Rejected e |}
  | Fulfilled jobId =>
      let run := pollJobStatus (remoteJob world) jobId (settledAt submitted) in
      {| clientAfter := clientAfter submitted;
         settledAt := pollFinish run;
         settledAs := pollOutcome run |}
  end.

(** [Promise.all] over promises that settle as given, at the given clock
    readings: the values in order when all are fulfilled, at the time the
    last one is; otherwise the reason of the rejection that comes first
    (the lowest index among simultaneous ones), at that time. *)
Fixpoint firstRejection {A} (settled : list (Z * Settled A)) : option (Z * Thrown) :=
  match settled with
  | [] => None
  | (t, Fulfilled _) :: later => firstRejection later
  | (t, Rejected e) :: later =>
      match firstRejection later with
      | Some (t', e') => if (t' <? t)%Z then Some (t', e') else Some (t, e)
      | None => Some (t, e)
      end
  end.

Definition fulfilledValues {A} (settled : list (Z * Settled A)) : list A :=
  flat_map (fun p => match snd p with Fulfilled v => [v] | Rejected _ => [] end)
           settled.

Definition promiseAll {A} (now : Z) (settled : list (Z * Settled A))
    : Z * Settled (list A) :=
  match firstRejection settled with
  | Some (t, e) => (t, Rejected e)
  | None => (fold_left Z.max (map fst settled) now, Fulfilled (fulfilledValues settled))
  end.

(** [requests.slice(i, i + concurrency)] for i = 0, concurrency, ...:
    at most [fuel] batches. (With [concurrency = 0] the loop of the source
    does not end; the pipeline passes 3.) *)
Fixpoint batchesOf {A} (fuel concurrency : nat) (items : list A) : list (list A) :=
  match fuel, items with
  | O, _ => []
  | _, [] => []
  | S fuel', _ =>
      firstn concurrency items :: batchesOf fuel' concurrency (skipn concurrency items)
  end.

(** [batch.map((request) => this.generate(request))]: the tasks of one
    batch start at the same clock reading [now]; each one's call of
    [waitForRateLimit] runs to its sleep (or to its end) before the next
    task starts, and every sleep ends with the push of the reading taken
    on entry, so the field ends up as if the calls ran one after the
    other. The client returned is the one reached when every task of the
    batch has passed the limiter: when a task fails while another still
    sleeps there, the push of the sleeping one comes after the batch has
    been rejected. [world i] is the service as item [i] of the whole list
    meets it. *)
Fixpoint startTasks (world : nat -> TaskWorld) (now : Z) (client : Client)
    (batch : list (nat * Sora2GenerationRequest))
    : Client * list (Z * Settled Sora2GenerationResponse) :=
  match batch with
  | [] => (client, [])
  | (index, request) :: later =>
      let run := generate client (world index) now request in
      let (client', others) := startTasks world now (clientAfter run) later in
      (client', (settledAt run, settledAs run) :: others)
  end.

(** The [for (const [index, batch] of batches.entries())] loop. *)
Fixpoint batchLoop (world : nat -> TaskWorld) (now : Z) (client : Client)
    (batches : list (list (nat * Sora2GenerationRequest)))
    (results : list Sora2GenerationResponse)
    : TaskRun (list Sora2GenerationResponse) :=
  match batches with
  | [] => {| clientAfter := client; settledAt := now; settledAs := Fulfilled results |}
  | batch :: later =>
      let (client', settled) := startTasks world now client batch in
      match promiseAll now settled with
      | (t, Rejected e) =>
          {| clientAfter := client'; settledAt := t; settledAs := Rejected e |}
      | (t, Fulfilled batchResults) =>
          batchLoop world t client' later (results ++ batchResults)
      end
  end.

Definition generateBatch (world : nat -> TaskWorld) (now : Z) (client : Client)
    (requests : list Sora2GenerationRequest) (concurrency : nat)
    : TaskRun (list Sora2GenerationResponse) :=
  let indexed := combine (seq 0 (List.length requests)) requests in
  let batches := batchesOf (List.length requests) concurrency indexed in
  batchLoop world now client batches [].

(** The clock reading at which round [k + d] of the polling loop is
    entered when round [k] is entered at [now] and no answer in between
    ends the loop. *)
Fixpoint roundClock (job : RemoteJob) (now : Z) (k d : nat) : Z :=
  match d with
  | O => now
  | S d' =>
      roundClock job
        (now + Z.of_N (statusLatency job k)
         + pollingInterval RATE_LIMIT + Z.of_N (oversleep job k))
        (S k) d'
  end.

(** The answer to query [j] says the job is still in flight. *)
Definition inFlight (job : RemoteJob) (jobId : string) (j : nat) : Prop :=
  exists status,
    getJobStatus job jobId j = Fulfilled status /\
    (resp_status status = queued \/ resp_status status = processing).

(** [outcome] is what the answer to query [m] makes of the poll: the
    response itself when it says completed, a GenerationFailed error when
    it says failed, the error of the query when the query failed. *)
Definition settledBy (job : RemoteJob) (jobId : string) (m : nat)
    (outcome : Settled Sora2GenerationResponse) : Prop :=
  match getJobStatus job jobId m with
  | Rejected e => outcome = Rejected e
  | Fulfilled status =>
      match resp_status status with
      | completed => outcome = Fulfilled status
      | failed => outcome = Rejected (generationFailedError status)
      | queued | processing => False
      end
  end.

End Sora2.

(* ------------------------------------------------------------------ *)
(** ** prompts/ugc-templates.ts *)

Module Templates.
Local Open Scope string_scope.

Definition ugcPromptTemplates (style : UGCStyle) : string :=
  match style with
  | casual =>
      "A casual smartphone video showing {product} in everyday use, " ++
      "natural lighting, slight camera shake, authentic user perspective, " ++
      "relaxed atmosphere, genuine moments"
  | testimonial =>
      "A genuine user testimonial video featuring {product}, " ++
      "speaking directly to camera, home environment, honest reaction, " ++
      "personal story, authentic emotion, trustworthy delivery"
  | tutorial =>
      "A step-by-step tutorial video demonstrating {product}, " ++
      "clear close-ups, user's hands visible, helpful annotations, " ++
      "easy to follow, instructional tone, practical tips"
  | unboxing =>
      "An unboxing video of {product}, " ++
      "excited user reaction, natural lighting, first impressions, " ++
      "product packaging, anticipation, discovery moment"
  | lifestyle =>
      "A lifestyle video featuring {product} in daily routine, " ++
      "aesthetic but authentic, natural movements, relatable scenarios, " ++
      "seamless integration, aspirational yet achievable"
  | comparison =>
      "A before-and-after comparison video showcasing {product} impact, " ++
      "side-by-side views, clear results, user satisfaction, " ++
      "measurable difference, transformation story"
  end.

(** What [String.prototype.replace] makes of a replacement string when the
    pattern is a string (so there are no capture groups): [$$] stands for
    a dollar sign, [$&] for the matched text, [$`] for what precedes the
    match and [$'] for what follows it; any other [$] stays as it is. *)
Fixpoint expandDollars (matched before after replacement : string) : string :=
  match replacement with
  | EmptyString => EmptyString
  | String c rest =>
      if Ascii.eqb c "$" then
        match rest with
        | EmptyString => String c EmptyString
        | String d rest' =>
            if Ascii.eqb d "$" then
              String "$" (expandDollars matched before after rest')
            else if Ascii.eqb d "&" then
              matched ++ expandDollars matched before after rest'
            else if Ascii.eqb d "`" then
              before ++ expandDollars matched before after rest'
            else if Ascii.eqb d "'" then
              after ++ expandDollars matched before after rest'
            else String c (expandDollars matched before after rest)
        end
      else String c (expandDollars matched before after rest)
  end.

(** The scan for the first occurrence of [pattern] in [s]; [before] is
    the text already passed. *)
Fixpoint replaceFrom (pattern replacement before s : string) : string :=
  if String.prefix pattern s then
    let after :=
      substring (String.length pattern) (String.length s - String.length pattern) s in
    expandDollars pattern before after replacement ++ after
  else
    match s with
    | EmptyString => EmptyString
    | String c rest =>
        String c (replaceFrom pattern replacement (before ++ String c EmptyString) rest)
    end.

(** [s.replace(pattern, replacement)] for a string pattern: the first
    occurrence only. *)
Definition replaceFirst (pattern replacement s : string) : string :=
  replaceFrom pattern replacement EmptyString s.

(** No [$] in the text. *)
Fixpoint dollarFree (s : string) : bool :=
  match s with
  | EmptyString => true
  | String c rest => negb (Ascii.eqb c "$") && dollarFree rest
  end.

Definition buildPrompt (style : UGCStyle) (productDescription : string)
    (additionalPrompts : option (list string)) : string :=
  let template := ugcPromptTemplates style in
  let prompt := replaceFirst "{product}" productDescription template in
  match additionalPrompts with
  | Some (first :: more) => prompt ++ ". " ++ String.concat ". " (first :: more)
  | _ => prompt
  end.

Inductive Tone : Type := energetic | calm | friendly | professional.

Definition toneVariations (t : Tone) : string :=
  match t with
  | energetic => "energetic and enthusiastic tone"
  | calm => "calm and relaxed atmosphere"
  | friendly => "warm and friendly delivery"
  | professional => "polished yet approachable style"
  end.

Definition framingAdjustments (r : AspectRatio) : string :=
  match r with
  | Ratio16x9 => "wide landscape framing, cinematic composition"
  | Ratio9x16 => "vertical portrait framing, mobile-first composition"
  | Ratio1x1 => "square framing, balanced composition"
  | Ratio4x5 => "vertical framing, Instagram-optimized composition"
  end.

Inductive Pacing : Type := short | medium | long.

Definition pacingAdjustments (p : Pacing) : string :=
  match p with
  | short => "quick cuts, fast-paced, attention-grabbing"
  | medium => "moderate pacing, well-balanced rhythm"
  | long => "slower pacing, detailed exploration, thorough demonstration"
  end.

Record VariedOptions : Type := {
  tone : option Tone;
  framing : option AspectRatio;
  pacing : option Pacing;
  additionalPrompts : option (list string)
}.

Definition buildVariedPrompt (style : UGCStyle) (productDescription : string)
    (options : VariedOptions) : string :=
  let prompt := buildPrompt style productDescription (additionalPrompts options) in
  let prompt :=
    match tone options with
    | Some t => prompt ++ ". " ++ toneVariations t
    | None => prompt
    end in
  let prompt :=
    match framing options with
    | Some f => prompt ++ ". " ++ framingAdjustments f
    | None => prompt
    end in
  let prompt :=
    match pacing options with
    | Some p => prompt ++ ". " ++ pacingAdjustments p
    | None => prompt
    end in
  prompt.

(** Where the placeholder starts in a template. *)
Definition placeholderAt (template : string) : nat :=
  match index 0 "{product}" template with
  | Some k => k
  | None => 0
  end.

End Templates.

(* ------------------------------------------------------------------ *)
(** ** core/UGCAdGenerator.ts: createGenerationPlan *)

Module Plan.
Import Templates.

Record UGCAdGenerationRequest : Type := {
  sourceVideo : string;
  numberOfAds : nat;
  targetAspectRatio : list AspectRatio;
  ugcStyle : option (list UGCStyle);
  duration : option Q;
  requestPrompts : option (list string)   (* additionalPrompts *)
}.

(** One element of the array [createGenerationPlan] returns. The aspect
    ratio is [None] when the index into an empty array gave [undefined]. *)
Record GenerationPlan : Type := {
  plan_ugcStyle : UGCStyle;
  plan_aspectRatio : option AspectRatio;
  plan_prompt : string
}.

Definition defaultStyles : list UGCStyle :=
  [casual; testimonial; tutorial; unboxing; lifestyle; comparison].

(** [request.ugcStyle || [...]]: an array, even an empty one, is truthy. *)
Definition allStylesOf (request : UGCAdGenerationRequest) : list UGCStyle :=
  match ugcStyle request with
  | Some styles => styles
  | None => defaultStyles
  end.

(** [x < y] on numbers. *)
Definition Qltb (x y : Q) : bool := negb (Qle_bool y x).

(** [i % 2 === 0 ? 'energetic' : 'friendly'] *)
Definition toneOf (i : nat) : Tone :=
  if (i mod 2 =? 0)%nat then energetic else friendly.

(** [i < request.numberOfAds / 2 ? 'medium' : 'short'] *)
Definition pacingOf (request : UGCAdGenerationRequest) (i : nat) : Pacing :=
  if Qltb (inject_Z (Z.of_nat i)) (inject_Z (Z.of_nat (numberOfAds request)) / 2)
  then medium else short.

Definition undefinedReplace : Thrown :=
  ErrorObj "TypeError" "Cannot read properties of undefined (reading 'replace')".

(** The [for (let i = 0; i < request.numberOfAds; i++)] loop, with
    [remaining] iterations to go. An empty style array makes the template
    lookup in [buildPrompt] yield [undefined], whose [replace] throws. *)
Fixpoint planLoop (request : UGCAdGenerationRequest) (remaining i : nat)
    (plan : list GenerationPlan) : Settled (list GenerationPlan) :=
  match remaining with
  | O => Fulfilled plan
  | S remaining' =>
      match at_mod (allStylesOf request) i with
      | None => Rejected undefinedReplace
      | Some style =>
          let aspectRatio := at_mod (targetAspectRatio request) i in
          let prompt :=
            buildVariedPrompt style "product"
              {| framing := aspectRatio;
                 tone := Some (toneOf i);
                 pacing := Some (pacingOf request i);
                 additionalPrompts := requestPrompts request |} in
          planLoop request remaining' (S i)
            (plan ++ [{| plan_ugcStyle := style;
                         plan_aspectRatio := aspectRatio;
                         plan_prompt := prompt |}])
      end
  end.

Definition createGenerationPlan (request : UGCAdGenerationRequest)
    : Settled (list GenerationPlan) :=
  planLoop request (numberOfAds request) 0 [].

(** The plan for ordinal [i] spelled out: round-robin style and aspect
    ratio, tone by parity, pacing by half. *)
Definition planAt (request : UGCAdGenerationRequest)
    (style : UGCStyle) (ratio : AspectRatio) (i : nat) : GenerationPlan :=
  {| plan_ugcStyle := style;
     plan_aspectRatio := Some ratio;
     plan_prompt :=
       buildVariedPrompt style "product"
         {| framing := Some ratio;
            tone := Some (if Nat.even i then energetic else friendly);
            pacing := Some (if (2 * i <? numberOfAds request)%nat then medium else short);
            additionalPrompts := requestPrompts request |} |}.

(** The element the loop pushes in iteration [i] when the style lookup
    gives [style]. *)
Definition pushedAt (request : UGCAdGenerationRequest) (style : UGCStyle)
    (i : nat) : GenerationPlan :=
  {| plan_ugcStyle := style;
     plan_aspectRatio := at_mod (targetAspectRatio request) i;
     plan_prompt :=
       buildVariedPrompt style "product"
         {| framing := at_mod (targetAspectRatio request) i;
            tone := Some (toneOf i);
            pacing := Some (pacingOf request i);
            additionalPrompts := requestPrompts request |} |}.

(** The request of the worked example: five ads over three styles and two
    aspect ratios. *)
Definition exampleRequest : UGCAdGenerationRequest :=
  {| sourceVideo := "source.mp4";
     numberOfAds := 5;
     targetAspectRatio := [Ratio16x9; Ratio9x16];
     ugcStyle := Some [casual; testimonial; tutorial];
     duration := None;
     requestPrompts := None |}.

End Plan.

(* ------------------------------------------------------------------ *)
(** ** core/UGCAdGenerator.ts: generate *)

Module Generator.
Import Retry Sora2 Templates Plan.

Record UGCAdGeneratorConfig : Type := {
  apiKey : string;
  outputDir : string;
  configRetry : option RetryConfig;       (* retryConfig *)
  defaultResolution : option Resolution;
  defaultFps : option Fps;
  debug : option bool
}.

Record QualityScore : Type := {
  overall : Q;
  videoQuality : Q;
  ugcAuthenticity : Q;
  adEffectiveness : Q
}.

Record VideoMetadata : Type := {
  filename : string;
  meta_resolution : string;
  fileSize : Q;
  ugcAuthenticityScore : Q;
  adEffectivenessScore : Q;
  generationTime : Q;
  cost : Q
}.

Record GeneratedAd : Type := {
  ad_id : string;
  ad_videoUrl : string;
  ad_thumbnailUrl : string;
  ad_duration : Q;
  ad_aspectRatio : string;
  ad_ugcStyle : string;
  ad_prompt : string;
  ad_metadata : VideoMetadata;
  ad_qualityScore : Q
}.

Record FailedAd : Type := {
  failed_id : string;
  failed_error : string;
  failed_errorCode : string;
  failed_prompt : option string
}.

Record UGCAdGenerationResult : Type := {
  generatedAds : list GeneratedAd;
  failedAds : list FailedAd;
  totalDuration : Q;
  totalCost : Q
}.

(** The fields of a [UGCAdGenerator] instance that [generate] reads or
    changes. *)
Record Instance : Type := {
  config : UGCAdGeneratorConfig;
  apiClient : Client;
  costTracker : CostTracker.State
}.

(** [new UGCAdGenerator(config)] *)
Definition create (cfg : UGCAdGeneratorConfig) : Settled Instance :=
  match createClient (apiKey cfg) (configRetry cfg) with
  | Rejected e => Rejected e
  | Fulfilled client =>
      Fulfilled {| config := cfg;
                   apiClient := client;
                   costTracker :=
                     CostTracker.create
                       (CostTracker.defaultMonthlyBudget CostTracker.SORA2_PRICING) |}
  end.

(** What one call of [generate] meets outside the instance: the clock,
    the verdicts of the validator and of the policy checker, the remote
    service as each item meets it, and the score the quality scorer gives
    each item. *)
Record CallWorld : Type := {
  startClock : Z;
  isValid : bool;
  validationErrors : list string;
  isCompliant : bool;
  policyDetails : list string;
  batchClock : Z;
  taskWorld : nat -> TaskWorld;
  qualityOf : nat -> QualityScore;
  recordClock : nat -> Z;
  endClock : Z
}.

(** [request.duration || 10]: [undefined] and 0 are falsy. *)
Definition durationOf (request : UGCAdGenerationRequest) : Q :=
  match duration request with
  | Some d => if Qeq_bool d 0 then 10 else d
  | None => 10
  end.

(** [this.config.defaultResolution || '1080p'] *)
Definition resolutionOf (cfg : UGCAdGeneratorConfig) : Resolution :=
  match defaultResolution cfg with Some r => r | None => R1080p end.

(** [this.config.defaultFps || 30] *)
Definition fpsOf (cfg : UGCAdGeneratorConfig) : Fps :=
  match defaultFps cfg with Some f => f | None => Fps30 end.

(** [s.padStart(target, pad)] for a one-character pad. *)
Definition padStart (target : nat) (pad : ascii) (s : string) : string :=
  (string_of_list_ascii (repeat pad (target - String.length s)) ++ s)%string.

(** [`ad-${String(index + 1).padStart(3, '0')}`] *)
Definition adId (index : nat) : string :=
  ("ad-" ++ padStart 3 "0" (showNat (index + 1)))%string.

Definition undefinedProperty (property : string) : Thrown :=
  ErrorObj "TypeError"
    ("Cannot read properties of undefined (reading '" ++ property ++ "')").

(** The locals of [generate] that the scoring loop changes. *)
Record Tally : Type := {
  ledger : CostTracker.State;
  generated : list GeneratedAd;
  failures : list FailedAd
}.

Section Scoring.

(** How the runtime prints a number inside a template literal. *)
Variable numberToString : Q -> string.

Variable cfg : UGCAdGeneratorConfig.
Variable world : CallWorld.
Variable request : UGCAdGenerationRequest.
Variable generationPlan : list GenerationPlan.

Definition generationFailedAd (index : nat) (response : Sora2GenerationResponse)
    (plan : GenerationPlan) : FailedAd :=
  {| failed_id := adId index;
     failed_error := orElse (resp_error response) "生成失敗";
     failed_errorCode := "GenerationFailed";
     failed_prompt := Some (plan_prompt plan) |}.

Definition qualityTooLowAd (index : nat) (score : QualityScore)
    (plan : GenerationPlan) : FailedAd :=
  {| failed_id := adId index;
     failed_error :=
       ("品質スコア不足: " ++ numberToString (overall score)
        ++ "点 (最低70点必要)")%string;
     failed_errorCode := "QualityTooLow";
     failed_prompt := Some (plan_prompt plan) |}.

Definition costDescription (index : nat) : string :=
  ("Ad " ++ showNat (index + 1) ++ " generated")%string.

Definition generatedAd (index : nat) (videoUrl : string)
    (response : Sora2GenerationResponse) (score : QualityScore)
    (plan : GenerationPlan) (ratio : AspectRatio) (price : Q) : GeneratedAd :=
  {| ad_id := adId index;
     ad_videoUrl := videoUrl;
     ad_thumbnailUrl := orElse (resp_thumbnailUrl response) "";
     ad_duration := durationOf request;
     ad_aspectRatio := aspectRatioString ratio;
     ad_ugcStyle := styleString (plan_ugcStyle plan);
     ad_prompt := plan_prompt plan;
     ad_qualityScore := overall score;
     ad_metadata :=
       {| filename :=
            (adId index ++ "-" ++ styleString (plan_ugcStyle plan) ++ "-"
             ++ replaceFirst ":" "x" (aspectRatioString ratio) ++ ".mp4")%string;
          meta_resolution := resolutionString (resolutionOf cfg);
          fileSize := 12000000;
          ugcAuthenticityScore := ugcAuthenticity score;
          adEffectivenessScore := adEffectiveness score;
          generationTime := 90;
          cost := price |} |}.

(** The body of the [for (const [index, response] of ...)] loop: the
    tally after it and, if the body throws, what it throws. *)
Definition scoreItem (tally : Tally) (index : nat)
    (response : Sora2GenerationResponse) : Tally * option Thrown :=
  let plan := at_index generationPlan index in
  match resp_status response, truthy (resp_videoUrl response) with
  | failed, _ | _, None =>
      match plan with
      | None => (tally, Some (undefinedProperty "prompt"))
      | Some p =>
          ({| ledger := ledger tally;
              generated := generated tally;
              failures := failures tally ++ [generationFailedAd index response p] |},
           None)
      end
  | _, Some videoUrl =>
      let qualityScore := qualityOf world index in
      if Qltb (overall qualityScore) 70 then
        match plan with
        | None => (tally, Some (undefinedProperty "prompt"))
        | Some p =>
            ({| ledger := ledger tally;
                generated := generated tally;
                failures := failures tally ++ [qualityTooLowAd index qualityScore p] |},
             None)
        end
      else
        let price :=
          CostTracker.calculateVideoCost (durationOf request) (resolutionOf cfg) in
        let recorded :=
          fst (CostTracker.recordCost (recordClock world index) price
                 (costDescription index) (ledger tally)) in
        let charged :=
          {| ledger := recorded;
             generated := generated tally;
             failures := failures tally |} in
        match plan with
        | None => (charged, Some (undefinedProperty "aspectRatio"))
        | Some p =>
            match plan_aspectRatio p with
            | None => (charged, Some undefinedReplace)
            | Some ratio =>
                ({| ledger := recorded;
                    generated :=
                      generated tally ++
                      [generatedAd index videoUrl response qualityScore p ratio price];
                    failures := failures tally |},
                 None)
            end
        end
  end.

Fixpoint scoreLoop (tally : Tally) (index : nat)
    (responses : list Sora2GenerationResponse) : Tally * option Thrown :=
  match responses with
  | [] => (tally, None)
  | response :: later =>
      match scoreItem tally index response with
      | (tally', Some e) => (tally', Some e)
      | (tally', None) => scoreLoop tally' (S index) later
      end
  end.

End Scoring.

Definition toSora2Request (cfg : UGCAdGeneratorConfig)
    (request : UGCAdGenerationRequest) (plan : GenerationPlan)
    : Sora2GenerationRequest :=
  {| req_prompt := plan_prompt plan;
     req_duration := durationOf request;
     req_aspectRatio := plan_aspectRatio plan;
     req_resolution := resolutionOf cfg;
     req_fps := fpsOf cfg;
     req_sourceVideoUrl := None |}.

(** [generate(request)] on instance [self]: the instance after the call
    and how the returned promise settles. *)
Definition generate (numberToString : Q -> string) (self : Instance)
    (world : CallWorld) (request : UGCAdGenerationRequest)
    : Instance * Settled UGCAdGenerationResult :=
  if negb (isValid world) then
    (self, Rejected (newError ("入力検証失敗: "
                               ++ String.concat ", " (validationErrors world))))
  else if negb (isCompliant world) then
    (self, Rejected (newError ("コンテンツポリシー違反: "
                               ++ String.concat ", " (policyDetails world))))
  else
    match createGenerationPlan request with
    | Rejected e => (self, Rejected e)
    | Fulfilled generationPlan =>
        let batch :=
          generateBatch (taskWorld world) (batchClock world) (apiClient self)
            (map (toSora2Request (config self) request) generationPlan) 3 in
        let submitted :=
          {| config := config self;
             apiClient := clientAfter batch;
             costTracker := costTracker self |} in
        match settledAs batch with
        | Rejected e => (submitted, Rejected e)
        | Fulfilled sora2Responses =>
            let (tally, thrown) :=
              scoreLoop numberToString (config self) world request generationPlan
                {| ledger := costTracker self; generated := []; failures := [] |}
                0 sora2Responses in
            let scored :=
              {| config := config self;
                 apiClient := clientAfter batch;
                 costTracker := ledger tally |} in
            match thrown with
            | Some e => (scored, Rejected e)
            | None =>
                (scored,
                 Fulfilled
                   {| generatedAds := generated tally;
                      failedAds := failures tally;
                      totalDuration :=
                        inject_Z (endClock world - startClock world) / 1000;
                      totalCost := CostTracker.getTotalCost (ledger tally) |})
            end
        end
    end.

(** Reads the number back out of an ad id: the digits after "ad-". *)
Definition readAdId (id : string) : option nat :=
  match id with
  | String "a" (String "d" (String "-" digits)) =>
      option_map Nat.of_uint (NilEmpty.uint_of_string digits)
  | _ => None
  end.

(** What every ad in a result of [generate] satisfies. *)
Definition passedGate (cfg : UGCAdGeneratorConfig) (request : UGCAdGenerationRequest)
    (ad : GeneratedAd) : Prop :=
  70 <= ad_qualityScore ad /\
  cost (ad_metadata ad)
    = CostTracker.calculateVideoCost (durationOf request) (resolutionOf cfg) /\
  ad_duration ad = durationOf request.

Definition knownFailure (f : FailedAd) : Prop :=
  failed_errorCode f = "GenerationFailed"%string \/
  failed_errorCode f = "QualityTooLow"%string.

(** The costs of the ads of one result, added onto [start] in order. *)
Definition addCosts (start : Q) (ads : list GeneratedAd) : Q :=
  fold_left (fun acc ad => acc + cost (ad_metadata ad)) ads start.

End Generator.

(* ------------------------------------------------------------------ *)
(** ** Concrete runs used below *)

Module Scenario.
Import Retry Sora2 Plan Generator.
Local Open Scope string_scope.

(** [throw 10n]: [String(10n)] is "10", and [JSON.stringify({ error: 10n })]
    throws a [TypeError]. *)
Definition thrownBigInt : Thrown :=
  Unserializable "10" "Do not know how to serialize a BigInt".

(** Prints the integer part of a number; exact on whole numbers. *)
Definition showWhole (q : Q) : string := NilZero.string_of_int (Z.to_int (Qfloor q)).

Definition someConfig : UGCAdGeneratorConfig :=
  {| apiKey := "sk-test";
     outputDir := "out";
     configRetry := None;
     defaultResolution := None;
     defaultFps := None;
     debug := None |}.

(** A fresh instance for [someConfig]: what [create someConfig] returns. *)
Definition freshInstance : Instance :=
  {| config := someConfig;
     apiClient := {| retryConfig := defaultRetryConfig; requestTimestamps := [] |};
     costTracker := CostTracker.create 5000 |}.

(** A job that is processing at the first query and completed, with a
    video, at the second. *)
Definition completingJob : RemoteJob :=
  {| statusReply := fun k =>
       if (k =? 0)%nat then StatusOk processing None None None (Some 40)
       else StatusOk completed (Some "https://cdn/video.mp4")
                     (Some "https://cdn/thumb.jpg") None (Some 100);
     statusLatency := fun _ => 200%N;
     oversleep := fun _ => 5%N |}.

(** A job that is processing at the first query and failed at the second. *)
Definition failingJob : RemoteJob :=
  {| statusReply := fun k =>
       if (k =? 0)%nat then StatusOk processing None None None (Some 40)
       else StatusOk failed None None (Some "content rejected") None;
     statusLatency := fun _ => 200%N;
     oversleep := fun _ => 5%N |}.

Definition accepted (job : RemoteJob) : TaskWorld :=
  {| submitReply := fun _ => SubmitOk (Some "job-1") None;
     submitDuration := 300%N;
     remoteJob := job |}.

(** A service that answers every submission with HTTP 429. *)
Definition throttled : TaskWorld :=
  {| submitReply := fun _ => SubmitNotOk 429 "{}";
     submitDuration := 210900%N;
     remoteJob := completingJob |}.

Definition scoring (n : Q) : QualityScore :=
  {| overall := n; videoQuality := 100; ugcAuthenticity := 80; adEffectiveness := 100 |}.

(** A call in which validation and policy pass, every item scores 85,
    the first item meets [first] and every other item [others]. *)
Definition callWith (first others : TaskWorld) : CallWorld :=
  {| startClock := 1000;
     isValid := true;
     validationErrors := [];
     isCompliant := true;
     policyDetails := [];
     batchClock := 1500;
     taskWorld := fun i => if (i =? 0)%nat then first else others;
     qualityOf := fun _ => scoring 85;
     recordClock := fun _ => 90000%Z;
     endClock := 91000 |}.

Definition adsRequest (n : nat) : UGCAdGenerationRequest :=
  {| sourceVideo := "source.mp4";
     numberOfAds := n;
     targetAspectRatio := [Ratio9x16];
     ugcStyle := Some [casual];
     duration := None;
     requestPrompts := None |}.

(** Calls made one after the other on the same instance. *)
Fixpoint generateAll (numberToString : Q -> string) (self : Instance)
    (calls : list (CallWorld * UGCAdGenerationRequest))
    : list (Settled UGCAdGenerationResult) :=
  match calls with
  | [] => []
  | (world, request) :: later =>
      let (self', result) := generate numberToString self world request in
      result :: generateAll numberToString self' later
  end.

(** A response that carries a video. *)
Definition videoResponse : Sora2GenerationResponse :=
  {| resp_jobId := "job-1";
     resp_status := completed;
     resp_videoUrl := Some "https://cdn/video.mp4";
     resp_thumbnailUrl := None;
     resp_error := None;
     resp_progress := Some 100 |}.

Definition somePlan : GenerationPlan :=
  {| plan_ugcStyle := casual;
     plan_aspectRatio := Some Ratio9x16;
     plan_prompt := "prompt" |}.

(** A call in which every item is scored [n]. *)
Definition scoredCall (n : Q) : CallWorld :=
  {| startClock := 1000;
     isValid := true;
     validationErrors := [];
     isCompliant := true;
     policyDetails := [];
     batchClock := 1500;
     taskWorld := fun _ => accepted completingJob;
     qualityOf := fun _ => scoring n;
     recordClock := fun _ => 90000%Z;
     endClock := 91000 |}.

Definition emptyTally : Tally :=
  {| ledger := CostTracker.create 5000; generated := []; failures := [] |}.

(** One ad requested without any target aspect ratio. *)
Definition noRatioRequest : UGCAdGenerationRequest :=
  {| sourceVideo := "source.mp4";
     numberOfAds := 1;
     targetAspectRatio := [];
     ugcStyle := None;
     duration := Some 8;
     requestPrompts := None |}.

End Scenario.

(* ------------------------------------------------------------------ *)
(** ** prompts/ugc-templates.ts: buildBatchPrompts *)

Module BatchPrompts.
Import Templates.

Definition styleEqb (a b : UGCStyle) : bool :=
  match a, b with
  | casual, casual | testimonial, testimonial | tutorial, tutorial
  | unboxing, unboxing | lifestyle, lifestyle | comparison, comparison => true
  | _, _ => false
  end.

(** An object keyed by style: [None] is a key that was never set. *)
Definition PromptRecord : Type := UGCStyle -> option string.

(** [prompts[style] = value] *)
Definition setPrompt (prompts : PromptRecord) (style : UGCStyle) (value : string)
    : PromptRecord :=
  fun key => if styleEqb key style then Some value else prompts key.

(** [for (const style of styles) prompts[style] = buildPrompt(style, ...)],
    starting from the empty object. *)
Definition buildBatchPrompts (styles : list UGCStyle) (productDescription : string)
    : PromptRecord :=
  fold_left
    (fun prompts style =>
       setPrompt prompts style (buildPrompt style productDescription None))
    styles (fun _ => None).

End BatchPrompts.

(* ------------------------------------------------------------------ *)
(** ** policy/content-policy-checker.ts *)

Module Policy.








End Policy.

(* ------------------------------------------------------------------ *)
(** ** quality/quality-scorer.ts *)

Module Quality.

Record Deduction : Type := { reason : string; points : Q }.

Record Scored : Type := {
  overall : Q;
  videoQuality : Q;
  ugcAuthenticity : Q;
  adEffectiveness : Q;
  deductions : list Deduction
}.

(** The six values [Math.random()] returns during one call of [score],
    in the order they are drawn. *)
Record Draws : Type := {
  drawNoise : Q;
  drawBlur : Q;
  drawProfessional : Q;
  drawLowQuality : Q;
  drawVisibility : Q;
  drawMessage : Q
}.

(** [x > y] on numbers. *)
Definition Qgtb (x y : Q) : bool := negb (Qle_bool x y).

(** Each evaluation returns its score and the deductions array after its
    pushes (the three share one array). *)
Definition evaluateVideoQuality (draws : Draws) (deducted : list Deduction)
    : Q * list Deduction :=
  let score := 100 in
  let hasNoise := Qgtb (drawNoise draws) (8 # 10) in
  let hasBlur := Qgtb (drawBlur draws) (9 # 10) in
  let (score, deducted) :=
    if hasNoise
    then (score - 10, deducted ++ [{| reason := "video_noise"; points := 10 |}])
    else (score, deducted) in
  let (score, deducted) :=
    if hasBlur
    then (score - 20, deducted ++ [{| reason := "blur_significant"; points := 20 |}])
    else (score, deducted) in
  (Qmax 0 score, deducted).

Definition evaluateUGCAuthenticity (draws : Draws) (deducted : list Deduction)
    : Q * list Deduction :=
  let score := 80 in
  let tooProfessional := Qgtb (drawProfessional draws) (9 # 10) in
  let tooLowQuality := Qgtb (drawLowQuality draws) (95 # 100) in
  let (score, deducted) :=
    if tooProfessional
    then (score - 20, deducted ++ [{| reason := "too_professional"; points := 20 |}])
    else (score, deducted) in
  let (score, deducted) :=
    if tooLowQuality
    then (score - 25, deducted ++ [{| reason := "too_low_quality"; points := 25 |}])
    else (score, deducted) in
  (Qmax 0 (Qmin 100 score), deducted).

Definition evaluateAdEffectiveness (draws : Draws) (deducted : list Deduction)
    : Q * list Deduction :=
  let score := 100 in
  let lowVisibility := Qgtb (drawVisibility draws) (85 # 100) in
  let unclearMessage := Qgtb (drawMessage draws) (9 # 10) in
  let (score, deducted) :=
    if lowVisibility
    then (score - 15, deducted ++ [{| reason := "low_visibility"; points := 15 |}])
    else (score, deducted) in
  let (score, deducted) :=
    if unclearMessage
    then (score - 20, deducted ++ [{| reason := "unclear_message"; points := 20 |}])
    else (score, deducted) in
  (Qmax 0 score, deducted).

(** [deductions.reduce((sum, d) => sum + d.points, 0)] *)
Definition totalDeductions (deducted : list Deduction) : Q :=
  fold_left (fun sum d => sum + points d) deducted 0.

Definition score (draws : Draws) : Scored :=
  let (video, deducted) := evaluateVideoQuality draws [] in
  let (authenticity, deducted) := evaluateUGCAuthenticity draws deducted in
  let (effectiveness, deducted) := evaluateAdEffectiveness draws deducted in
  {| overall := Qmax 0 (100 - totalDeductions deducted);
     videoQuality := video;
     ugcAuthenticity := authenticity;
     adEffectiveness := effectiveness;
     deductions := deducted |}.

End Quality.

(* ------------------------------------------------------------------ *)
(** ** validators/video-validator.ts *)

Module Validator.

Record ValidationConfig : Type := {
  maxDuration : Q;
  supportedFormats : list string;
  maxFileSize : Z;
  minWidth : Q;
  minHeight : Q
}.

Definition VALIDATION_CONFIG : ValidationConfig :=
  {| maxDuration := 20;
     supportedFormats := ["mp4"; "mov"; "webm"]%string;
     maxFileSize := 500 * 1024 * 1024;
     minWidth := 1280;
     minHeight := 720 |}.

(** A JavaScript number as far as a comparison can tell: [parseFloat],
    [parseInt] and [Number] give NaN for text that is no number, and
    [undefined] compares as NaN. *)
Inductive JsNumber : Type :=
| Finite (q : Q)
| NaN
| PlusInfinity
| MinusInfinity.

(** [x > limit]: false when [x] is NaN. *)
Definition greaterThan (x : JsNumber) (limit : Q) : bool :=
  match x with
  | Finite q => Plan.Qltb limit q
  | PlusInfinity => true
  | NaN | MinusInfinity => false
  end.

(** [x < limit]: false when [x] is NaN. *)
Definition lessThan (x : JsNumber) (limit : Q) : bool :=
  match x with
  | Finite q => Plan.Qltb q limit
  | MinusInfinity => true
  | NaN | PlusInfinity => false
  end.

(** What [getVideoInfo] returns when ffprobe answers: [duration] is
    [parseFloat(data.format.duration)], [resolution] the text
    [`${width}x${height}`], [fileSize] a [parseInt], [fps] a rounded
    quotient. *)
Record VideoInfo : Type := {
  info_duration : JsNumber;
  info_resolution : string;
  info_fileSize : JsNumber;
  info_format : string;
  info_fps : JsNumber
}.

Record VideoValidationResult : Type := {
  isValid : bool;
  errors : list string;
  videoInfo : option VideoInfo
}.

(** [c.toLowerCase()] on the letters A..Z (other bytes are left alone;
    no other character lowers to a letter of a supported format). *)
Definition lowerAscii (c : ascii) : ascii :=
  let n := nat_of_ascii c in
  if ((65 <=? n) && (n <=? 90))%nat then ascii_of_nat (n + 32) else c.

Fixpoint toLowerCase (s : string) : string :=
  match s with
  | EmptyString => EmptyString
  | String c rest => String (lowerAscii c) (toLowerCase rest)
  end.

(** [s.split('.').pop()]: what follows the last dot, or all of [s]. *)
Fixpoint lastSegment (s acc : string) : string :=
  match s with
  | EmptyString => acc
  | String "."%char rest => lastSegment rest EmptyString
  | String c rest => lastSegment rest (acc ++ String c EmptyString)
  end.

Definition extensionOf (filePath : string) : string :=
  toLowerCase (lastSegment filePath EmptyString).

Definition stringIn (s : string) (l : list string) : bool :=
  existsb (String.eqb s) l.

(** [s.split(sep)] for a separator of one character; [acc] is the piece
    being read. *)
Fixpoint splitOn (sep : ascii) (s acc : string) : list string :=
  match s with
  | EmptyString => [acc]
  | String c rest =>
      if Ascii.eqb c sep then acc :: splitOn sep rest EmptyString
      else splitOn sep rest (acc ++ String c EmptyString)
  end.

(** An element of [const [width, height] = ...]: a missing one is
    [undefined], which compares as NaN. *)
Definition pieceAt (pieces : list JsNumber) (i : nat) : JsNumber :=
  match nth_error pieces i with
  | Some n => n
  | None => NaN
  end.

(** A string without a dot. *)
Fixpoint dotFree (s : string) : bool :=
  match s with
  | EmptyString => true
  | String "."%char _ => false
  | String _ rest => dotFree rest
  end.

Section Validate.

(** How the runtime prints a number in a template literal and with two
    decimals, and how [Number] reads a text. *)
Variable numberToString : JsNumber -> string.
Variable toFixed2 : Q -> string.
Variable Number : string -> JsNumber.

(** [videoInfo.resolution.split('x').map(Number)] *)
Definition dimensions (info : VideoInfo) : list JsNumber :=
  map Number (splitOn "x" (info_resolution info) EmptyString).

Definition widthOf (info : VideoInfo) : JsNumber := pieceAt (dimensions info) 0.
Definition heightOf (info : VideoInfo) : JsNumber := pieceAt (dimensions info) 1.

(** [validate(filePath)]: [stats] is how [stat(filePath)] settles (the
    size in bytes), [probed] what [getVideoInfo] returns ([None] for
    [null]; it catches its own errors). The [catch] block hands the
    error of [stat] to [logger.error] before it returns; if the logger
    throws, so does [validate]. *)
Definition validate (filePath : string) (stats : Settled Z)
    (probed : option VideoInfo) : Settled VideoValidationResult :=
  match stats with
  | Rejected error =>
      match loggerErrorThrows error with
      | Some failure => Rejected failure
      | None =>
          Fulfilled
            {| isValid := false;
               errors := [("検証エラー: " ++ messageOrString error)%string];
               videoInfo := None |}
      end
  | Fulfilled size =>
      let fileSizeMB := inject_Z size / inject_Z (1024 * 1024) in
      let errs :=
        if (maxFileSize VALIDATION_CONFIG <? size)%Z
        then [("ファイルサイズが大きすぎます: " ++ toFixed2 fileSizeMB
               ++ "MB (上限: 500MB)")%string]
        else [] in
      let extension := extensionOf filePath in
      let errs :=
        if (String.eqb extension EmptyString
            || negb (stringIn extension (supportedFormats VALIDATION_CONFIG)))%bool
        then errs ++
             [("サポートされていないフォーマット: " ++ extension ++ " (サポート: "
               ++ String.concat ", " (supportedFormats VALIDATION_CONFIG) ++ ")")%string]
        else errs in
      match probed with
      | None =>
          Fulfilled
            {| isValid := false;
               errors := errs ++ ["動画情報の取得に失敗しました"%string];
               videoInfo := None |}
      | Some info =>
          let errs :=
            if greaterThan (info_duration info) (maxDuration VALIDATION_CONFIG)
            then errs ++
                 [("動画が長すぎます: " ++ numberToString (info_duration info)
                   ++ "秒 (上限: "
                   ++ numberToString (Finite (maxDuration VALIDATION_CONFIG))
                   ++ "秒)")%string]
            else errs in
          let errs :=
            if (lessThan (widthOf info) (minWidth VALIDATION_CONFIG)
                || lessThan (heightOf info) (minHeight VALIDATION_CONFIG))%bool
            then errs ++
                 [("解像度が低すぎます: " ++ info_resolution info
                   ++ " (最小: 1280x720)")%string]
            else errs in
          let valid := (List.length errs =? 0)%nat in
          Fulfilled
            {| isValid := valid;
               errors := errs;
               videoInfo := if valid then Some info else None |}
      end
  end.

End Validate.

End Validator.

(* ================================================================== *)
(** * Part II: properties                                              *)
(* ================================================================== *)

(* ------------------------------------------------------------------ *)
(** ** Retry executor *)

Section RetryFacts.
Import Retry.

Lemma backoff_shift config k :
  calculateBackoffDelay (S k - 1) config = backoffOfRetry config (S k).
Proof.
  unfold calculateBackoffDelay, backoffOfRetry.
  replace (S k - 1)%nat with k by lia.
  replace (Z.of_nat (S k) - 1)%Z with (Z.of_nat k) by lia.
  reflexivity.
Qed.

Lemma actions_app t1 t2 : actions (t1 ++ t2) = actions t1 ++ actions t2.
Proof. apply filter_app. Qed.

Lemma seq_snoc start len : seq start (S len) = seq start len ++ [(start + len)%nat].
Proof. apply seq_S. Qed.

(** Reporting an error that is not retryable neither sleeps nor calls. *)
Lemma actions_reportFatal e : actions (fst (reportFatal e)) = [].
Proof. unfold reportFatal. destruct (loggerErrorThrows e); reflexivity. Qed.

Lemma actions_cons_call k t : actions (ECall k :: t) = ECall k :: actions t.
Proof. reflexivity. Qed.

(** Loop invariant of [retryLoop]: entering iteration [S a] after [a]
    retries' worth of schedule, the actions continue that schedule. *)
Lemma retryLoop_schedule T (fn : nat -> Settled T) config context :
  forall remaining a lastError,
    (S a + remaining = S (maxRetries config))%nat ->
    (0 < remaining)%nat ->
    exists k, (a < k <= maxRetries config)%nat /\
      actions (fst (retryLoop fn config context remaining (S a) lastError)) =
      flat_map (fun j => [ESleep (backoffOfRetry config j); ECall j])
               (seq (S a) (k - a)).
Proof.
  induction remaining as [|r IH]; intros a lastError Hsum Hpos; [lia|].
  cbn [retryLoop].
  replace (0 <? S a)%nat with true by reflexivity.
  rewrite backoff_shift.
  destruct (fn (S a)) as [v|e].
  - exists (S a). split; [lia|].
    replace (S a - a)%nat with 1%nat by lia. reflexivity.
  - destruct (negb (isRetryableError e (retryableErrors config))).
    + exists (S a). split; [lia|].
      replace (S a - a)%nat with 1%nat by lia.
      cbn [fst]. rewrite actions_app, actions_cons_call, actions_reportFatal.
      reflexivity.
    + destruct (Nat.eqb_spec (S a) (maxRetries config)) as [Heq|Hne].
      * exists (S a). split; [lia|].
        replace (S a - a)%nat with 1%nat by lia. reflexivity.
      * destruct r as [|r']; [lia|].
        destruct (IH (S a) (Some e)) as [k [Hk Hact]]; [lia|lia|].
        destruct (retryLoop fn config context (S r') (S (S a)) (Some e))
          as [later result] eqn:Hloop.
        exists k. split; [lia|].
        cbn [fst] in *.
        replace (k - a)%nat with (S (k - S a)) by lia.
        cbn [seq flat_map].
        change (actions ([ELog INFO; ESleep (backoffOfRetry config (S a))]
                         ++ [ECall (S a); ELog WARN] ++ later))
          with (ESleep (backoffOfRetry config (S a)) :: ECall (S a) :: actions later).
        rewrite Hact. reflexivity.
Qed.

Lemma sleeps_actions trace : sleeps (actions trace) = sleeps trace.
Proof.
  unfold sleeps, actions.
  induction trace as [|e t IH]; [reflexivity|].
  destruct e; cbn; [f_equal; exact IH | exact IH | exact IH].
Qed.

Lemma sleeps_schedule config k :
  sleeps (retrySchedule config k) = map (backoffOfRetry config) (seq 1 k).
Proof.
  unfold retrySchedule. cbn [sleeps flat_map app].
  generalize 1%nat. induction k as [|k IH]; intros s; [reflexivity|].
  cbn. f_equal. apply IH.
Qed.


Lemma calls_app t1 t2 : calls (t1 ++ t2) = calls t1 ++ calls t2.
Proof. apply flat_map_app. Qed.

Lemma sleeps_app t1 t2 : sleeps (t1 ++ t2) = sleeps t1 ++ sleeps t2.
Proof. apply flat_map_app. Qed.

Lemma calls_before attempt config :
  calls (if (0 <? attempt)%nat
         then [ELog INFO; ESleep (calculateBackoffDelay (attempt - 1) config)]
         else []) = [].
Proof. destruct (0 <? attempt)%nat; reflexivity. Qed.

Lemma calls_reportFatal e : calls (fst (reportFatal e)) = [].
Proof. unfold reportFatal. destruct (loggerErrorThrows e); reflexivity. Qed.

Lemma sleeps_reportFatal e : sleeps (fst (reportFatal e)) = [].
Proof. unfold reportFatal. destruct (loggerErrorThrows e); reflexivity. Qed.

(** From any iteration [a] on: if every invocation before iteration [k]
    throws something retryable and the one in iteration [k] throws
    something that is not, the loop stops right after that invocation and
    the report of it. *)
Lemma retryLoop_fatal T (fn : nat -> Settled T) config context k e :
  (k <= maxRetries config)%nat ->
  fn k = Rejected e ->
  isRetryableError e (retryableErrors config) = false ->
  forall remaining a lastError,
    (a + remaining = S (maxRetries config))%nat ->
    (a <= k)%nat ->
    (forall j, (a <= j < k)%nat ->
       exists e', fn j = Rejected e' /\
                  isRetryableError e' (retryableErrors config) = true) ->
    exists before,
      retryLoop fn config context remaining a lastError =
        (before ++ ECall k :: fst (reportFatal e), Rejected (snd (reportFatal e))) /\
      calls before = seq a (k - a) /\
      List.length (sleeps before) = ((if (0 <? a)%nat then 1 else 0) + (k - a))%nat.
Proof.
  intros Hk Hthrow Hfatal.
  induction remaining as [|r IH]; intros a lastError Hsum Hle Hprev; [lia|].
  cbn [retryLoop].
  destruct (Nat.eq_dec a k) as [->|Hlt].
  - rewrite Hthrow, Hfatal. cbn [negb].
    eexists. split; [reflexivity|].
    rewrite calls_before. replace (k - k)%nat with 0%nat by lia.
    split; [reflexivity|].
    destruct (0 <? k)%nat; reflexivity.
  - destruct (Hprev a) as [e' [Hfn Hretry]]; [lia|].
    rewrite Hfn, Hretry. cbn [negb].
    destruct (Nat.eqb_spec a (maxRetries config)) as [Heq|Hne]; [lia|].
    destruct (IH (S a) (Some e')) as [before [Hloop [Hcalls Hsleeps]]]; [lia|lia| |].
    { intros j Hj. apply Hprev. lia. }
    rewrite Hloop.
    eexists. split; [|split].
    + rewrite !app_assoc. reflexivity.
    + rewrite !calls_app, calls_before, Hcalls.
      replace (k - a)%nat with (S (k - S a)) by lia. reflexivity.
    + rewrite !sleeps_app, !length_app, Hsleeps.
      replace (0 <? S a)%nat with true by reflexivity.
      destruct (0 <? a)%nat; cbn; lia.
Qed.

(** C9. No thrown value that is not an [Error] instance is retryable,
    whatever the configured list, and [withRetry] neither calls the
    operation again nor sleeps after one is thrown. But the value itself
    is not always what [withRetry] rejects with: the [catch] block hands
    it to [logger.error] before [throw error], and for a value that
    [JSON.stringify] refuses the logger throws first. An operation that
    throws the BigInt [10n] makes [withRetry] reject with the logger's
    [TypeError] after the one invocation, and the thrown value is lost;
    a thrown string is logged and comes back as it was. *)
Theorem withRetry_logger_masks_thrown_value :
  (forall shown retryable, isRetryableError (NonError shown) retryable = false) /\
  (forall shown jsonError retryable,
     isRetryableError (Unserializable shown jsonError) retryable = false) /\
  withRetry (fun _ => @Rejected nat Scenario.thrownBigInt) defaultRetryConfig "op"
    = ([ECall 0],
       Rejected (ErrorObj "TypeError" "Do not know how to serialize a BigInt")) /\
  snd (withRetry (fun _ => @Rejected nat Scenario.thrownBigInt) defaultRetryConfig "op")
    <> Rejected Scenario.thrownBigInt /\
  withRetry (fun _ => @Rejected nat (NonError "boom")) defaultRetryConfig "op"
    = ([ECall 0; ELog ERROR], Rejected (NonError "boom")).
Proof.
  repeat split; try reflexivity.
  cbn. discriminate.
Qed.

End RetryFacts.

(* ------------------------------------------------------------------ *)
(** ** Cost ledger *)

Section CostFacts.
Import CostTracker.

Lemma calculateVideoCost_at_least_minimum d r : 5 <= calculateVideoCost d r.
Proof. unfold calculateVideoCost. cbn. apply Q.le_max_r. Qed.

(** C7. [calculateVideoCost d r] is max(d * rate r, 5.0) with rate 0.5
    for 720p and 1.0 for 1080p: it is the least amount that is at least
    both the per-second price of the duration and the minimum charge;
    (3 s, 1080p) costs 5, (10 s, 720p) costs 5, (20 s, 1080p) costs 20;
    the result depends on its two arguments only. *)
Theorem calculateVideoCost_formula :
  (forall d r,
     let rate := match r with R720p => 1 # 2 | R1080p => 1 end in
     calculateVideoCost d r = Qmax (d * rate) 5 /\
     d * rate <= calculateVideoCost d r /\
     5 <= calculateVideoCost d r /\
     (calculateVideoCost d r == d * rate \/ calculateVideoCost d r == 5)) /\
  calculateVideoCost 3 R1080p == 5 /\
  calculateVideoCost 10 R720p == 5 /\
  calculateVideoCost 20 R1080p == 20 /\
  (forall d d' r, d == d' -> calculateVideoCost d r == calculateVideoCost d' r).
Proof.
  split; [|repeat split; try reflexivity].
  - intros d r rate. subst rate.
    split; [destruct r; reflexivity|].
    split; [unfold calculateVideoCost; destruct r; apply Q.le_max_l|].
    split; [apply calculateVideoCost_at_least_minimum|].
    unfold calculateVideoCost.
    destruct (Q.max_dec (d * perSecond SORA2_PRICING r) (minimumCharge SORA2_PRICING))
      as [H|H]; [left|right]; rewrite H; destruct r; reflexivity.
  - intros d d' r Hd. unfold calculateVideoCost. rewrite Hd. reflexivity.
Qed.

(** The same duration written in two ways costs the same. *)
Lemma calculateVideoCost_formula_witness :
  calculateVideoCost 10 R720p == calculateVideoCost (20 # 2) R720p.
Proof.
  apply (proj2 (proj2 (proj2 (proj2 calculateVideoCost_formula)))).
  reflexivity.
Defined.

Lemma sumAmounts_snoc history entry :
  sumAmounts (history ++ [entry]) = sumAmounts history + amount entry.
Proof. unfold sumAmounts. rewrite fold_left_app. reflexivity. Qed.

Lemma step_consistent st op : ledger_consistent st -> ledger_consistent (step st op).
Proof.
  unfold ledger_consistent, getTotalCost, getCostHistory.
  intros H. destruct op as [now amt desc| |]; cbn [step recordCost reset fst totalCost costs].
  - rewrite sumAmounts_snoc, H. reflexivity.
  - reflexivity.
  - exact H.
Qed.

Lemma run_consistent ops : forall st, ledger_consistent st -> ledger_consistent (run ops st).
Proof.
  unfold run. induction ops as [|op ops IH]; intros st H; [exact H|].
  cbn. apply IH, step_consistent, H.
Qed.

Lemma run_budget ops : forall st, monthlyBudget (run ops st) = monthlyBudget st.
Proof.
  unfold run. induction ops as [|op ops IH]; intros st; [reflexivity|].
  cbn. rewrite IH. destruct op; reflexivity.
Qed.

Lemma sinceLastReset_no_reset ops : existsb isReset ops = false -> sinceLastReset ops = ops.
Proof.
  destruct ops as [|op rest]; [reflexivity|].
  cbn. intros H. apply orb_false_iff in H. destruct H as [Hop Hrest].
  rewrite Hrest, Hop. reflexivity.
Qed.

(** Number of history entries after running [ops] from any state. *)
Lemma run_history_length ops : forall st,
  List.length (costs (run ops st)) =
    if existsb isReset ops then recordsSinceReset ops
    else (List.length (costs st) + List.length (filter isRecord ops))%nat.
Proof.
  unfold run, recordsSinceReset.
  induction ops as [|op rest IH]; intros st; [cbn; lia|].
  cbn [fold_left existsb sinceLastReset]. rewrite IH.
  destruct (existsb isReset rest) eqn:Hrest.
  - rewrite orb_true_r. reflexivity.
  - rewrite orb_false_r.
    destruct op as [now amt desc| |]; cbn.
    + rewrite length_app. cbn. lia.
    + reflexivity.
    + reflexivity.
Qed.

(** C10. After any sequence of recordCost, reset and query calls on a
    fresh tracker: getTotalCost is the sum of the amounts in the cost
    history; the history has as many entries as recordCost was called
    since the last reset; getRemainingBudget is max(0, budget - total)
    and is not negative; and recordCost always completes by appending its
    entry, also on a tracker that is already over budget. *)
Theorem costTracker_invariant :
  forall budget ops,
    let st := run ops (create budget) in
    getTotalCost st = sumAmounts (getCostHistory st) /\
    List.length (getCostHistory st) = recordsSinceReset ops /\
    getRemainingBudget st = Qmax 0 (budget - getTotalCost st) /\
    0 <= getRemainingBudget st /\
    (forall now amt desc,
       exists st' logs,
         recordCost now amt desc st = (st', logs) /\
         getCostHistory st' =
           getCostHistory st ++
           [{| timestamp := now; amount := amt; description := desc |}] /\
         getTotalCost st' = getTotalCost st + amt).
Proof.
  intros budget ops st. subst st.
  split; [apply run_consistent; reflexivity|].
  split.
  { unfold getCostHistory. rewrite run_history_length.
    destruct (existsb isReset ops) eqn:Hreset; [reflexivity|].
    unfold recordsSinceReset. rewrite sinceLastReset_no_reset by exact Hreset.
    reflexivity. }
  split; [unfold getRemainingBudget, getTotalCost; rewrite run_budget; reflexivity|].
  split; [apply Q.le_max_l|].
  intros now amt desc. eexists. eexists.
  split; [reflexivity|]. split; reflexivity.
Qed.

End CostFacts.

(* ------------------------------------------------------------------ *)
(** ** Job poller *)

Section PollFacts.
Import Sora2.

Lemma inFlight_intro job jobId k status :
  getJobStatus job jobId k = Fulfilled status ->
  resp_status status = queued \/ resp_status status = processing ->
  inFlight job jobId k.
Proof. intros Hq Hs. exists status. split; assumption. Qed.

(** The deadline is checked first: a round entered after it raises at
    once. *)
Lemma pollLoop_late job jobId startTime now k :
  (300000 < now - startTime)%Z ->
  pollLoop job jobId startTime now k =
    {| pollTrace := []; pollFinish := now;
       pollOutcome := Rejected (timeoutError jobId) |}.
Proof.
  funelim (pollLoop job jobId startTime now k); intros Hlate;
    cbn [generationTimeout pollingInterval RATE_LIMIT] in *;
    solve [reflexivity | lia].
Qed.

Lemma inFlight_dec job jobId k : inFlight job jobId k \/ ~ inFlight job jobId k.
Proof.
  destruct (getJobStatus job jobId k) as [status|e] eqn:Hq.
  - destruct (resp_status status) eqn:Hs.
    + left. eapply inFlight_intro; [eassumption|left; assumption].
    + left. eapply inFlight_intro; [eassumption|right; assumption].
    + right. intros [s [Hq' [Hs'|Hs']]]; congruence.
    + right. intros [s [Hq' [Hs'|Hs']]]; congruence.
  - right. intros [s [Hq' _]]. congruence.
Qed.

Lemma roundClock_later job : forall d now k, (now <= roundClock job now k d)%Z.
Proof.
  induction d as [|d IH]; intros now k; cbn [roundClock]; [lia|].
  specialize (IH (now + Z.of_N (statusLatency job k)
                  + pollingInterval RATE_LIMIT + Z.of_N (oversleep job k))%Z (S k)).
  cbn [pollingInterval RATE_LIMIT] in *.
  pose proof (N2Z.is_nonneg (statusLatency job k)).
  pose proof (N2Z.is_nonneg (oversleep job k)). lia.
Qed.

Lemma inFlight_not_settled job jobId k outcome :
  inFlight job jobId k -> settledBy job jobId k outcome -> False.
Proof.
  intros [status [Hq Hs]] Hset. unfold settledBy in Hset. rewrite Hq in Hset.
  destruct Hs as [Hs|Hs]; rewrite Hs in Hset; exact Hset.
Qed.

(** A round entered before the deadline whose answer is "in flight" goes
    on to the next round after the sleep. *)
Lemma pollLoop_round job jobId startTime now k :
  (now - startTime <= 300000)%Z ->
  inFlight job jobId k ->
  pollLoop job jobId startTime now k =
    {| pollTrace :=
         PQuery k :: PSleep 10000 ::
         pollTrace (pollLoop job jobId startTime
                      (now + Z.of_N (statusLatency job k) + 10000
                       + Z.of_N (oversleep job k)) (S k));
       pollFinish :=
         pollFinish (pollLoop job jobId startTime
                       (now + Z.of_N (statusLatency job k) + 10000
                        + Z.of_N (oversleep job k)) (S k));
       pollOutcome :=
         pollOutcome (pollLoop job jobId startTime
                        (now + Z.of_N (statusLatency job k) + 10000
                         + Z.of_N (oversleep job k)) (S k)) |}.
Proof.
  funelim (pollLoop job jobId startTime now k); intros Hdeadline Hflight;
    cbn [generationTimeout pollingInterval RATE_LIMIT] in *.
  - lia.
  - destruct Hflight as [status [Hq _]]. congruence.
  - reflexivity.
  - reflexivity.
  - destruct Hflight as [s [Hq [Hs|Hs]]]; congruence.
  - destruct Hflight as [s [Hq [Hs|Hs]]]; congruence.
Qed.

(** A round entered before the deadline whose answer is not "in flight"
    ends the poll with that answer. *)
Lemma pollLoop_terminal job jobId startTime now k :
  (now - startTime <= 300000)%Z ->
  ~ inFlight job jobId k ->
  pollTrace (pollLoop job jobId startTime now k) = [PQuery k] /\
  pollFinish (pollLoop job jobId startTime now k)
    = (now + Z.of_N (statusLatency job k))%Z /\
  settledBy job jobId k (pollOutcome (pollLoop job jobId startTime now k)).
Proof.
  funelim (pollLoop job jobId startTime now k); intros Hdeadline Hterminal;
    cbn [generationTimeout pollingInterval RATE_LIMIT
         pollTrace pollFinish pollOutcome] in *.
  - lia.
  - repeat split. unfold settledBy. rewrite Heq. reflexivity.
  - exfalso. apply Hterminal. eapply inFlight_intro; [eassumption|left; assumption].
  - exfalso. apply Hterminal. eapply inFlight_intro; [eassumption|right; assumption].
  - repeat split. unfold settledBy. rewrite Heq0, Heq. reflexivity.
  - repeat split. unfold settledBy. rewrite Heq0, Heq. reflexivity.
Qed.

Lemma pollLoop_first_terminal job jobId startTime :
  forall d now k,
    (forall j, (k <= j < k + d)%nat -> inFlight job jobId j) ->
    ~ inFlight job jobId (k + d) ->
    (roundClock job now k d - startTime <= 300000)%Z ->
    pollTrace (pollLoop job jobId startTime now k)
      = (pollRounds k d ++ [PQuery (k + d)])%list /\
    pollFinish (pollLoop job jobId startTime now k)
      = (roundClock job now k d + Z.of_N (statusLatency job (k + d)))%Z /\
    settledBy job jobId (k + d) (pollOutcome (pollLoop job jobId startTime now k)).
Proof.
  induction d as [|d IH]; intros now k Hflight Hterminal Hclock.
  - rewrite Nat.add_0_r in *. cbn [roundClock] in *.
    apply pollLoop_terminal; assumption.
  - pose proof (roundClock_later job (S d) now k) as Hlater.
    rewrite pollLoop_round; [| lia | apply Hflight; lia].
    cbn [pollTrace pollFinish pollOutcome].
    cbn [roundClock pollingInterval RATE_LIMIT] in Hclock |- *.
    replace (k + S d)%nat with (S k + d)%nat in * by lia.
    destruct (IH (now + Z.of_N (statusLatency job k) + 10000
                  + Z.of_N (oversleep job k))%Z (S k)) as [Ht [Hf Hs]].
    + intros j Hj. apply Hflight. lia.
    + exact Hterminal.
    + exact Hclock.
    + rewrite Ht, Hf. repeat split. exact Hs.
Qed.

(** Rounds answered "in flight" and entered in time, up to one that is
    entered late: the poll raises the timeout there. *)
Lemma pollLoop_times_out job jobId startTime :
  forall d now k,
    (forall j, (j < d)%nat ->
       inFlight job jobId (k + j) /\
       (roundClock job now k j - startTime <= 300000)%Z) ->
    (300000 < roundClock job now k d - startTime)%Z ->
    pollLoop job jobId startTime now k =
      {| pollTrace := pollRounds k d;
         pollFinish := roundClock job now k d;
         pollOutcome := Rejected (timeoutError jobId) |}.
Proof.
  induction d as [|d IH]; intros now k Hrounds Hlate.
  - cbn [roundClock] in Hlate. rewrite pollLoop_late by exact Hlate. reflexivity.
  - destruct (Hrounds 0%nat) as [Hflight Hclock]; [lia|].
    rewrite Nat.add_0_r in Hflight. cbn [roundClock] in Hclock.
    rewrite pollLoop_round by assumption.
    cbn [roundClock pollingInterval RATE_LIMIT] in Hlate |- *.
    rewrite (IH (now + Z.of_N (statusLatency job k) + 10000
                 + Z.of_N (oversleep job k))%Z (S k)).
    + reflexivity.
    + intros j Hj. destruct (Hrounds (S j)) as [Hf Hc]; [lia|].
      replace (k + S j)%nat with (S k + j)%nat in Hf by lia.
      cbn [roundClock pollingInterval RATE_LIMIT] in Hc. split; assumption.
    + exact Hlate.
Qed.

(** Every run, from a round [k] entered no earlier than [k] polling
    intervals after the start: it ends at the first round that is entered
    late or answered with something other than "in flight". The fuel
    counts the rounds the deadline still admits. *)
Lemma pollLoop_decided job jobId startTime :
  forall fuel now k,
    (Z.of_nat k * 10000 <= now - startTime)%Z ->
    (31 <= k + fuel)%nat ->
    exists n,
      (n = 0 \/ k + n <= 31)%nat /\
      queries (pollTrace (pollLoop job jobId startTime now k)) = seq k n /\
      ((pollTrace (pollLoop job jobId startTime now k) = pollRounds k n /\
        pollOutcome (pollLoop job jobId startTime now k)
          = Rejected (timeoutError jobId) /\
        pollFinish (pollLoop job jobId startTime now k) = roundClock job now k n /\
        (300000 < roundClock job now k n - startTime)%Z /\
        (forall j, (j < n)%nat ->
           inFlight job jobId (k + j) /\
           (roundClock job now k j - startTime <= 300000)%Z))
       \/
       (exists m, n = S m /\
          pollTrace (pollLoop job jobId startTime now k)
            = pollRounds k m ++ [PQuery (k + m)] /\
          pollFinish (pollLoop job jobId startTime now k)
            = (roundClock job now k m + Z.of_N (statusLatency job (k + m)))%Z /\
          (roundClock job now k m - startTime <= 300000)%Z /\
          settledBy job jobId (k + m)
            (pollOutcome (pollLoop job jobId startTime now k)) /\
          (forall j, (j < m)%nat -> inFlight job jobId (k + j)))).
Proof.
  induction fuel as [|fuel IH]; intros now k Hk Hfuel.
  - (* thirty-one intervals have gone by *)
    rewrite pollLoop_late by lia.
    exists 0%nat. split; [left; reflexivity|]. split; [reflexivity|].
    left. cbn [pollTrace pollOutcome pollFinish roundClock].
    repeat split; try lia; intros; lia.
  - destruct (Z_lt_dec 300000 (now - startTime)) as [Hlate|Hintime].
    + rewrite pollLoop_late by exact Hlate.
      exists 0%nat. split; [left; reflexivity|]. split; [reflexivity|].
      left. cbn [pollTrace pollOutcome pollFinish roundClock].
      repeat split; try lia; intros; lia.
    + destruct (inFlight_dec job jobId k) as [Hflight|Hterminal].
      * rewrite pollLoop_round; [|lia|exact Hflight].
        cbn [pollTrace pollFinish pollOutcome].
        pose proof (N2Z.is_nonneg (statusLatency job k)) as Hlat.
        pose proof (N2Z.is_nonneg (oversleep job k)) as Hover.
        destruct (IH (now + Z.of_N (statusLatency job k) + 10000
                      + Z.of_N (oversleep job k))%Z (S k))
          as [n [Hbound [Hq Hcases]]]; [lia|lia|].
        exists (S n). split; [right; lia|].
        split.
        { change (queries (PQuery k :: PSleep 10000 :: ?t))
            with (k :: queries t).
          rewrite Hq. reflexivity. }
        destruct Hcases as [[Ht [Ho [Hf [Hc Hall]]]] | [m [-> [Ht [Hf [Hc [Hs Hall]]]]]]].
        -- left. rewrite Ht, Ho, Hf.
           cbn [roundClock pollingInterval RATE_LIMIT].
           repeat split; try assumption.
           ++ destruct j as [|j]; [rewrite Nat.add_0_r; exact Hflight|].
              replace (k + S j)%nat with (S k + j)%nat by lia.
              apply Hall. lia.
           ++ destruct j as [|j]; [cbn [roundClock]; lia|].
              cbn [roundClock pollingInterval RATE_LIMIT].
              apply Hall. lia.
        -- right. exists (S m).
           replace (k + S m)%nat with (S k + m)%nat by lia.
           rewrite Ht, Hf.
           cbn [roundClock pollingInterval RATE_LIMIT].
           repeat split; try assumption.
           intros j Hj.
           destruct j as [|j]; [rewrite Nat.add_0_r; exact Hflight|].
           replace (k + S j)%nat with (S k + j)%nat by lia.
           apply Hall. lia.
      * destruct (@pollLoop_terminal job jobId startTime now k) as [Ht [Hf Hs]];
          [lia|exact Hterminal|].
        exists 1%nat. split; [right; lia|].
        split; [rewrite Ht; reflexivity|].
        right. exists 0%nat. rewrite Nat.add_0_r. cbn [roundClock pollRounds].
        repeat split; try assumption; try lia.
Qed.

(** C6. [pollJobStatus] is total, and the answers of the service and the
    clock decide every run. Write clock(j) for the time at which round j
    is entered: the start time plus, for each earlier round, the latency
    of its query, the 10000 ms sleep and what the sleep overshot.

    (1) Every run has one of two shapes. Either it issues queries
    0..n-1, each answered "in flight" and issued with at most 300000 ms
    elapsed, each followed by a sleep of exactly 10000 ms, and then, with
    clock(n) more than 300000 ms after the start, raises APITimeout at
    clock(n) without a further query. Or it issues queries 0..m with a
    10000 ms sleep between consecutive ones, the earlier ones answered
    "in flight", the last one issued with at most 300000 ms elapsed, and
    settles by the answer to query m when it arrives. In both shapes at
    most 300000/10000 + 1 = 31 queries are issued.

    (2) If queries 0..m-1 are answered "in flight" and query m is issued
    in time, then an answer "completed" to query m makes the poll return
    that very response, and an answer "failed" makes it raise a
    GenerationFailed error.

    (3) If queries 0..n-1 are answered "in flight" and issued in time and
    round n is entered late, the run is exactly those n queries with
    their sleeps, and it raises APITimeout. *)
Theorem pollJobStatus_terminates_bounded :
  forall job jobId now,
    (exists n,
      (Z.of_nat n <=
         generationTimeout RATE_LIMIT / pollingInterval RATE_LIMIT + 1)%Z /\
      queries (pollTrace (pollJobStatus job jobId now)) = seq 0 n /\
      ((pollTrace (pollJobStatus job jobId now) = pollRounds 0 n /\
        pollOutcome (pollJobStatus job jobId now) = Rejected (timeoutError jobId) /\
        pollFinish (pollJobStatus job jobId now) = roundClock job now 0 n /\
        (generationTimeout RATE_LIMIT < roundClock job now 0 n - now)%Z /\
        (forall j, (j < n)%nat ->
           inFlight job jobId j /\
           (roundClock job now 0 j - now <= generationTimeout RATE_LIMIT)%Z))
       \/
       (exists m, n = S m /\
          pollTrace (pollJobStatus job jobId now) = pollRounds 0 m ++ [PQuery m] /\
          pollFinish (pollJobStatus job jobId now)
            = (roundClock job now 0 m + Z.of_N (statusLatency job m))%Z /\
          (roundClock job now 0 m - now <= generationTimeout RATE_LIMIT)%Z /\
          settledBy job jobId m (pollOutcome (pollJobStatus job jobId now)) /\
          (forall j, (j < m)%nat -> inFlight job jobId j)))) /\
    (forall m status,
       (forall j, (j < m)%nat -> inFlight job jobId j) ->
       (roundClock job now 0 m - now <= generationTimeout RATE_LIMIT)%Z ->
       getJobStatus job jobId m = Fulfilled status ->
       (resp_status status = completed ->
          pollOutcome (pollJobStatus job jobId now) = Fulfilled status) /\
       (resp_status status = failed ->
          pollOutcome (pollJobStatus job jobId now)
            = Rejected (generationFailedError status))) /\
    (forall n,
       (forall j, (j < n)%nat ->
          inFlight job jobId j /\
          (roundClock job now 0 j - now <= generationTimeout RATE_LIMIT)%Z) ->
       (generationTimeout RATE_LIMIT < roundClock job now 0 n - now)%Z ->
       pollTrace (pollJobStatus job jobId now) = pollRounds 0 n /\
       pollOutcome (pollJobStatus job jobId now) = Rejected (timeoutError jobId) /\
       pollFinish (pollJobStatus job jobId now) = roundClock job now 0 n).
Proof.
  intros job jobId now. unfold pollJobStatus.
  cbn [generationTimeout pollingInterval RATE_LIMIT].
  split; [|split].
  - destruct (@pollLoop_decided job jobId now 31 now 0) as [n [Hbound [Hq Hcases]]];
      [cbn; lia|lia|].
    exists n.
    split; [change (300000 / 10000 + 1)%Z with 31%Z; lia|].
    split; [exact Hq|].
    destruct Hcases as [[Ht [Ho [Hf [Hc Hall]]]] | [m [Hn [Ht [Hf [Hc [Hs Hall]]]]]]].
    + left. repeat split; try assumption; apply Hall; assumption.
    + right. exists m. cbn [Nat.add] in *.
      repeat split; assumption.
  - intros m status Hflight Hclock Hanswer.
    assert (Hdone : resp_status status = completed \/ resp_status status = failed ->
              settledBy job jobId m (pollOutcome (pollLoop job jobId now now 0))).
    { intros Hdone.
      apply (@pollLoop_first_terminal job jobId now m now 0%nat).
      - intros j Hj. apply Hflight. lia.
      - cbn [Nat.add]. intros [s [Hq Hs]].
        assert (s = status) by congruence. subst s.
        destruct Hdone as [Hd|Hd], Hs as [Hs|Hs]; congruence.
      - exact Hclock. }
    unfold settledBy in Hdone. rewrite Hanswer in Hdone.
    split; intros Hs; rewrite Hs in Hdone; apply Hdone; [left|right]; reflexivity.
  - intros n Hrounds Hlate.
    rewrite (@pollLoop_times_out job jobId now n now 0%nat).
    + repeat split.
    + intros j Hj. cbn [Nat.add]. apply Hrounds. exact Hj.
    + exact Hlate.
Qed.

(** The bound is reached: a job that stays queued and a service that
    answers at once are polled 31 times before the timeout. *)
Example pollJobStatus_bound_reached :
  let job := {| statusReply := fun _ => StatusOk queued None None None None;
                statusLatency := fun _ => 0%N;
                oversleep := fun _ => 0%N |} in
  queries (pollTrace (pollJobStatus job "job" 0)) = seq 0 31 /\
  pollOutcome (pollJobStatus job "job" 0) = Rejected (timeoutError "job") /\
  pollFinish (pollJobStatus job "job" 0) = 310000%Z.
Proof. vm_compute. repeat split. Qed.

End PollFacts.

(* ------------------------------------------------------------------ *)
(** ** Rate limiter *)

Section RateLimitFacts.
Import Sora2.

(** With fewer than three stamps in the trailing minute the call records
    the current time and does not sleep. *)
Lemma waitForRateLimit_free now stamps :
  (List.length (keptStamps now stamps) < 3)%nat ->
  waitForRateLimit now stamps = (keptStamps now stamps ++ [now], None).
Proof.
  intros Hlen. unfold waitForRateLimit, keptStamps in *.
  cbn [requestsPerMinute RATE_LIMIT].
  destruct (Nat.leb_spec 3 (List.length
     (filter (fun timestamp => (now - 60000 <? timestamp)%Z) stamps))); [lia|].
  reflexivity.
Qed.

(** With three or more it sleeps for 60000 - (now - oldest), which is
    positive, and then records the time read on entry. *)
Lemma waitForRateLimit_full now stamps :
  (3 <= List.length (keptStamps now stamps))%nat ->
  exists oldest rest,
    keptStamps now stamps = oldest :: rest /\
    (0 < 60000 - (now - oldest))%Z /\
    waitForRateLimit now stamps =
      (keptStamps now stamps ++ [now], Some (60000 - (now - oldest))%Z).
Proof.
  intros Hlen. unfold waitForRateLimit. fold (keptStamps now stamps).
  cbn [requestsPerMinute RATE_LIMIT].
  destruct (Nat.leb_spec 3 (List.length (keptStamps now stamps))); [|lia].
  destruct (keptStamps now stamps) as [|oldest rest] eqn:Hkept; [cbn in Hlen; lia|].
  assert (Hin : In oldest (keptStamps now stamps)) by (rewrite Hkept; left; reflexivity).
  apply filter_In in Hin. destruct Hin as [_ Hold].
  apply Z.ltb_lt in Hold.
  exists oldest, rest. split; [reflexivity|]. split; [lia|].
  destruct (Z.ltb_spec 0 (60000 - (now - oldest))); [reflexivity|lia].
Qed.

(** C3 (what the code does on four successive calls). Calls entered at
    0, 1 and 2 ms are recorded at once. The call entered at 3 ms finds
    three stamps in the window and sleeps 59997 ms, but then appends the
    stale reading 3 without looking at the window again: the client now
    holds four stamps, all inside the 60000 ms that end at 3. Three more
    calls then return at 60001, 60002 and 60003 after 1 ms each, so four
    calls are let through within the 60000 ms that end at 60003. *)
Theorem waitForRateLimit_window_overfilled :
  acquireAll [0; 1; 1; 1]%Z 0 [] [] = ([0; 1; 2; 3]%Z, 60000%Z, [0; 1; 2; 60000]%Z) /\
  inWindow 3 [0; 1; 2; 3]%Z = 4%nat /\
  snd (acquireAll [0; 1; 1; 1; 0; 0; 0]%Z 0 [] [])
    = [0; 1; 2; 60000; 60001; 60002; 60003]%Z /\
  inWindow 60003 (snd (acquireAll [0; 1; 1; 1; 0; 0; 0]%Z 0 [] [])) = 4%nat.
Proof. vm_compute. repeat split. Qed.

End RateLimitFacts.

(* ------------------------------------------------------------------ *)
(** ** Plan construction *)

Section PlanFacts.
Import Templates Plan.

Lemma toneOf_parity i : toneOf i = if Nat.even i then energetic else friendly.
Proof.
  unfold toneOf. rewrite <- Nat.bit0_mod, Nat.bit0_odd, <- Nat.negb_even.
  destruct (Nat.even i); reflexivity.
Qed.

(** The comparison [i < n / 2] on numbers is [2 * i < n] on naturals. *)
Lemma pacingOf_half request i :
  pacingOf request i = if (2 * i <? numberOfAds request)%nat then medium else short.
Proof.
  unfold pacingOf, Qltb.
  set (n := numberOfAds request).
  destruct (Nat.ltb_spec (2 * i) n) as [Hlt|Hge].
  - destruct (Qle_bool (inject_Z (Z.of_nat n) / 2) (inject_Z (Z.of_nat i))) eqn:Hle;
      [|reflexivity].
    apply Qle_bool_iff in Hle. exfalso.
    unfold Qle, Qdiv, Qmult, Qinv, inject_Z in Hle. cbn in Hle. lia.
  - destruct (Qle_bool (inject_Z (Z.of_nat n) / 2) (inject_Z (Z.of_nat i))) eqn:Hle;
      [reflexivity|].
    exfalso. apply Bool.not_true_iff_false in Hle. apply Hle.
    apply Qle_bool_iff.
    unfold Qle, Qdiv, Qmult, Qinv, inject_Z. cbn. lia.
Qed.

Lemma at_mod_nonempty A (l : list A) i :
  l <> [] ->
  exists x, at_mod l i = Some x /\ nth_error l (i mod List.length l) = Some x.
Proof.
  intros Hne. unfold at_mod.
  destruct l as [|a l']; [congruence|].
  cbn [List.length].
  destruct (nth_error (a :: l') (i mod S (List.length l'))) as [x|] eqn:Hnth.
  - exists x. split; reflexivity.
  - apply nth_error_None in Hnth. cbn [List.length] in Hnth.
    pose proof (Nat.mod_upper_bound i (S (List.length l'))). lia.
Qed.

(** The loop appends one element per remaining iteration. *)
Lemma planLoop_appends request :
  allStylesOf request <> [] ->
  forall remaining i acc,
    exists tail,
      planLoop request remaining i acc = Fulfilled (acc ++ tail) /\
      List.length tail = remaining /\
      forall j, (j < remaining)%nat ->
        exists style,
          at_mod (allStylesOf request) (i + j) = Some style /\
          nth_error tail j = Some (pushedAt request style (i + j)).
Proof.
  intros Hstyles.
  induction remaining as [|r IH]; intros i acc.
  - exists []. cbn. rewrite app_nil_r. repeat split. intros j Hj. lia.
  - cbn [planLoop].
    destruct (@at_mod_nonempty _ (allStylesOf request) i Hstyles) as [style [Hstyle _]].
    rewrite Hstyle.
    destruct (IH (S i) (acc ++ [pushedAt request style i])) as [tail [Hloop [Hlen Hnth]]].
    exists (pushedAt request style i :: tail).
    split; [|split].
    + unfold pushedAt in *. rewrite Hloop, <- app_assoc. reflexivity.
    + cbn. rewrite Hlen. reflexivity.
    + intros [|j] Hj.
      * exists style. rewrite Nat.add_0_r. split; [exact Hstyle|reflexivity].
      * destruct (Hnth j) as [style' [Hs Hn]]; [lia|].
        exists style'. replace (i + S j)%nat with (S i + j)%nat by lia.
        split; [exact Hs|exact Hn].
Qed.

(** The loop reads four fields of the request and nothing else. *)
Lemma planLoop_ext r1 r2 :
  numberOfAds r1 = numberOfAds r2 ->
  ugcStyle r1 = ugcStyle r2 ->
  targetAspectRatio r1 = targetAspectRatio r2 ->
  requestPrompts r1 = requestPrompts r2 ->
  forall remaining i acc, planLoop r1 remaining i acc = planLoop r2 remaining i acc.
Proof.
  intros Hn Hs Ha Hp.
  induction remaining as [|r IH]; intros i acc; [reflexivity|].
  cbn [planLoop]. unfold allStylesOf, pacingOf.
  rewrite Hn, Hs, Ha, Hp.
  destruct (at_mod match ugcStyle r2 with
                   | Some styles => styles
                   | None => defaultStyles
                   end i); [apply IH|reflexivity].
Qed.

(** C5. With non-empty style and aspect-ratio arrays,
    [createGenerationPlan] returns exactly [numberOfAds] plans, and the
    plan for ordinal [i] has style styles[i mod |styles|], aspect ratio
    ratios[i mod |ratios|], tone energetic for even [i] and friendly for
    odd [i], pacing medium exactly when 2*i < numberOfAds (that is,
    i < numberOfAds/2) and short otherwise. For five ads over styles
    [A,B,C] and ratios [X,Y] the styles are [A,B,C,A,B] and the ratios
    [X,Y,X,Y,X]. The plan is a function of the request: of its count,
    style array, ratio array and additional prompts only. *)
Theorem createGenerationPlan_round_robin :
  (forall request,
     allStylesOf request <> [] ->
     targetAspectRatio request <> [] ->
     exists plan,
       createGenerationPlan request = Fulfilled plan /\
       List.length plan = numberOfAds request /\
       forall i, (i < numberOfAds request)%nat ->
         exists style ratio,
           nth_error (allStylesOf request)
                     (i mod List.length (allStylesOf request)) = Some style /\
           nth_error (targetAspectRatio request)
                     (i mod List.length (targetAspectRatio request)) = Some ratio /\
           nth_error plan i = Some (planAt request style ratio i)) /\
  (exists plan,
     createGenerationPlan exampleRequest = Fulfilled plan /\
     map plan_ugcStyle plan = [casual; testimonial; tutorial; casual; testimonial] /\
     map plan_aspectRatio plan =
       [Some Ratio16x9; Some Ratio9x16; Some Ratio16x9; Some Ratio9x16; Some Ratio16x9] /\
     map toneOf (seq 0 5) = [energetic; friendly; energetic; friendly; energetic] /\
     map (pacingOf exampleRequest) (seq 0 5) = [medium; medium; medium; short; short]) /\
  (forall r1 r2,
     numberOfAds r1 = numberOfAds r2 ->
     ugcStyle r1 = ugcStyle r2 ->
     targetAspectRatio r1 = targetAspectRatio r2 ->
     requestPrompts r1 = requestPrompts r2 ->
     createGenerationPlan r1 = createGenerationPlan r2).
Proof.
  split; [|split].
  - intros request Hstyles Hratios.
    destruct (@planLoop_appends request Hstyles (numberOfAds request) 0%nat [])
      as [plan [Hloop [Hlen Hnth]]].
    exists plan. split; [exact Hloop|]. split; [exact Hlen|].
    intros i Hi.
    destruct (Hnth i Hi) as [style [Hstyle Hplan]]. cbn [Nat.add] in *.
    destruct (@at_mod_nonempty _ (allStylesOf request) i Hstyles) as [style' [Hs' Hsn]].
    destruct (@at_mod_nonempty _ (targetAspectRatio request) i Hratios)
      as [ratio [Hr Hrn]].
    assert (style' = style) by congruence. subst style'.
    exists style, ratio. split; [exact Hsn|]. split; [exact Hrn|].
    rewrite Hplan. unfold pushedAt, planAt.
    rewrite Hr, toneOf_parity, pacingOf_half. reflexivity.
  - eexists. split; [vm_compute; reflexivity|]. vm_compute. repeat split.
  - intros r1 r2 Hn Hs Ha Hp. unfold createGenerationPlan.
    rewrite Hn. apply planLoop_ext; assumption.
Qed.

(** The worked example satisfies the premises. *)
Lemma createGenerationPlan_round_robin_witness :
  exists plan,
    createGenerationPlan exampleRequest = Fulfilled plan /\
    List.length plan = 5%nat.
Proof.
  destruct (proj1 createGenerationPlan_round_robin exampleRequest)
    as [plan [Hplan [Hlen _]]].
  - cbn. discriminate.
  - cbn. discriminate.
  - exists plan. split; [exact Hplan|exact Hlen].
Defined.

End PlanFacts.

(* ------------------------------------------------------------------ *)
(** ** Generation pipeline *)

Section PipelineFacts.
Import Retry Sora2 Plan Generator Scenario.

Lemma create_someConfig : create someConfig = Fulfilled freshInstance.
Proof. reflexivity. Qed.

(** [Promise.all] rejects as soon as one of its promises does. *)
Lemma firstRejection_found A (settled : list (Z * Settled A)) t e :
  In (t, Rejected e) settled -> firstRejection settled <> None.
Proof.
  induction settled as [|[t0 [v|e0]] later IH]; intros Hin; [contradiction| |].
  - destruct Hin as [Heq|Hin]; [discriminate|]. cbn. apply IH, Hin.
  - cbn. destruct (firstRejection later) as [[t' e']|]; [|discriminate].
    destruct (t' <? t0)%Z; discriminate.
Qed.

Lemma promiseAll_rejects A now (settled : list (Z * Settled A)) t e :
  In (t, Rejected e) settled ->
  exists t' e', promiseAll now settled = (t', Rejected e').
Proof.
  intros Hin. unfold promiseAll.
  destruct (firstRejection settled) as [[t' e']|] eqn:Hfirst.
  - exists t', e'. reflexivity.
  - exfalso. eapply firstRejection_found; eassumption.
Qed.

(** C1 (what the code does when one item fails for good). Two ads are
    requested; validation and policy pass. In the first run the job of
    the second item reports "failed"; in the second run every submission
    of the second item is answered 429 until the retries are used up.
    Either way the error leaves [pollJobStatus] / [withRetry] as a throw,
    [Promise.all] in [generateBatch] rejects, and [generate] rejects with
    it: no aggregate is returned and the first item, which completed, is
    lost. *)
Theorem generate_rejects_when_one_item_fails :
  snd (generate showWhole freshInstance
         (callWith (accepted completingJob) (accepted failingJob)) (adsRequest 2))
    = Rejected (newError "GenerationFailed: content rejected") /\
  snd (generate showWhole freshInstance
         (callWith (accepted completingJob) throttled) (adsRequest 2))
    = Rejected (newError
        "Sora2 API generateVideo: 3回のリトライ後も失敗: RateLimitExceeded").
Proof. split; vm_compute; reflexivity. Qed.

Lemma addCosts_app start ads more :
  addCosts start (ads ++ more) = addCosts (addCosts start ads) more.
Proof. unfold addCosts. apply fold_left_app. Qed.

Ltac split_scoreItem :=
  unfold scoreItem;
  repeat match goal with
         | |- context [match ?x with _ => _ end] => destruct x eqn:?
         end.

(** One pass through the loop body that does not throw adds exactly one
    record to the two lists together; what it adds to the ledger is the
    cost of the ad it adds, if any. *)
Lemma scoreItem_accounts show cfg world request plans tally index response tally' :
  scoreItem show cfg world request plans tally index response = (tally', None) ->
  exists added,
    generated tally' = (generated tally ++ added)%list /\
    CostTracker.getTotalCost (ledger tally') =
      addCosts (CostTracker.getTotalCost (ledger tally)) added /\
    List.length (CostTracker.costs (ledger tally')) =
      (List.length (CostTracker.costs (ledger tally)) + List.length added)%nat /\
    (List.length (generated tally') + List.length (failures tally'))%nat =
      S (List.length (generated tally) + List.length (failures tally)).
Proof.
  split_scoreItem; intros H; inversion H; subst; clear H; cbn [ledger generated failures].
  all: try (exists (@nil GeneratedAd); rewrite app_nil_r, ?length_app; cbn;
            repeat split; lia).
  all: eexists; split; [reflexivity|]; cbn; rewrite !length_app; cbn;
       repeat split; try reflexivity; lia.
Qed.

Lemma scoreLoop_accounts show cfg world request plans :
  forall responses tally index tally',
    scoreLoop show cfg world request plans tally index responses = (tally', None) ->
    exists added,
      generated tally' = (generated tally ++ added)%list /\
      CostTracker.getTotalCost (ledger tally') =
        addCosts (CostTracker.getTotalCost (ledger tally)) added /\
      List.length (CostTracker.costs (ledger tally')) =
        (List.length (CostTracker.costs (ledger tally)) + List.length added)%nat /\
      (List.length (generated tally') + List.length (failures tally'))%nat =
        (List.length (generated tally) + List.length (failures tally)
         + List.length responses)%nat.
Proof.
  induction responses as [|response later IH]; intros tally index tally' Hloop.
  - cbn in Hloop. inversion Hloop; subst. exists [].
    rewrite app_nil_r. cbn. repeat split; lia.
  - cbn [scoreLoop] in Hloop.
    destruct (scoreItem show cfg world request plans tally index response)
      as [middle [e|]] eqn:Hitem; [discriminate|].
    apply scoreItem_accounts in Hitem.
    destruct Hitem as [first [Hgen1 [Hcost1 [Hlen1 Hcount1]]]].
    apply IH in Hloop.
    destruct Hloop as [rest [Hgen2 [Hcost2 [Hlen2 Hcount2]]]].
    exists (first ++ rest)%list.
    rewrite Hgen2, Hgen1, Hcost2, Hcost1, Hlen2, Hlen1, addCosts_app, app_assoc,
      !length_app.
    repeat split; try reflexivity; try lia.
    rewrite Hgen2, Hgen1, !length_app in Hcount2.
    rewrite Hgen1, !length_app in Hcount1. cbn [List.length]. lia.
Qed.

(** C2 (as the code has it). The [totalCost] of a result is the running
    total of the instance's ledger when the call ends: the total the
    ledger held when the call began plus the costs of the ads generated
    in this call. It is the cost of this call alone only when the ledger
    was empty before. *)
Theorem generate_totalCost_is_running_total
    show self world request self' result :
  generate show self world request = (self', Fulfilled result) ->
  totalCost result = CostTracker.getTotalCost (costTracker self') /\
  totalCost result =
    addCosts (CostTracker.getTotalCost (costTracker self)) (generatedAds result).
Proof.
  unfold generate.
  destruct (negb (isValid world)); [discriminate|].
  destruct (negb (isCompliant world)); [discriminate|].
  destruct (createGenerationPlan request) as [plans|e]; [|discriminate].
  destruct (settledAs _) as [responses|e]; [|discriminate].
  destruct (scoreLoop _ _ _ _ _ _ _ _) as [tally [e|]] eqn:Hloop; [discriminate|].
  intros H. inversion H; subst; clear H. cbn [totalCost costTracker generatedAds].
  split; [reflexivity|].
  apply scoreLoop_accounts in Hloop.
  destruct Hloop as [added [Hgen [Hcost _]]].
  cbn [ledger generated] in *. rewrite Hgen, Hcost. reflexivity.
Qed.

(** One ad on a fresh instance: the running total is that ad's cost. *)
Lemma generate_totalCost_is_running_total_witness :
  exists self' result,
    generate showWhole freshInstance
      (callWith (accepted completingJob) (accepted completingJob)) (adsRequest 1)
      = (self', Fulfilled result) /\
    totalCost result = addCosts 0 (generatedAds result).
Proof.
  eexists. eexists. split; [vm_compute; reflexivity|].
  refine (proj2 (@generate_totalCost_is_running_total showWhole freshInstance
            (callWith (accepted completingJob) (accepted completingJob))
            (adsRequest 1) _ _ _)).
  vm_compute. reflexivity.
Defined.

(** C2 (not the cost of the call alone). Two calls, one ad each, on one instance: the
    second result reports 20 although the ad generated in that call cost
    10. *)
Lemma totalCost_second_call_counterexample :
  exists first second,
    generateAll showWhole freshInstance
      [(callWith (accepted completingJob) (accepted completingJob), adsRequest 1);
       (callWith (accepted completingJob) (accepted completingJob), adsRequest 1)]
      = [Fulfilled first; Fulfilled second] /\
    totalCost second == 20 /\
    addCosts 0 (generatedAds second) == 10 /\
    ~ totalCost second == addCosts 0 (generatedAds second).
Proof.
  eexists. eexists. split; [vm_compute; reflexivity|].
  cbn [totalCost generatedAds].
  split; [reflexivity|]. split; [reflexivity|].
  intros H. vm_compute in H. discriminate H.
Qed.

Lemma Qltb_lt x y : Qltb x y = true <-> x < y.
Proof.
  unfold Qltb. rewrite negb_true_iff, <- not_true_iff_false, Qle_bool_iff.
  split; [apply Qnot_le_lt|apply Qlt_not_le].
Qed.

Lemma Qltb_ge x y : Qltb x y = false <-> y <= x.
Proof.
  unfold Qltb. rewrite negb_false_iff, Qle_bool_iff. reflexivity.
Qed.

(** Records once made stay: the loop only appends. *)
Lemma scoreItem_keeps show cfg world request plans tally index response tally' :
  scoreItem show cfg world request plans tally index response = (tally', None) ->
  (forall ad, In ad (generated tally) -> In ad (generated tally')) /\
  (forall f, In f (failures tally) -> In f (failures tally')).
Proof.
  split_scoreItem; intros H; inversion H; subst; clear H;
    cbn [generated failures]; split; intros x Hx;
    try assumption; apply in_or_app; left; assumption.
Qed.

Lemma scoreLoop_keeps show cfg world request plans :
  forall responses tally index tally',
    scoreLoop show cfg world request plans tally index responses = (tally', None) ->
    (forall ad, In ad (generated tally) -> In ad (generated tally')) /\
    (forall f, In f (failures tally) -> In f (failures tally')).
Proof.
  induction responses as [|response later IH]; intros tally index tally' Hloop.
  - cbn in Hloop. inversion Hloop; subst. split; intros x Hx; exact Hx.
  - cbn [scoreLoop] in Hloop.
    destruct (scoreItem show cfg world request plans tally index response)
      as [middle [e|]] eqn:Hitem; [discriminate|].
    apply scoreItem_keeps in Hitem. apply IH in Hloop.
    destruct Hitem as [Hg1 Hf1]. destruct Hloop as [Hg2 Hf2].
    split; intros x Hx; [apply Hg2, Hg1, Hx|apply Hf2, Hf1, Hx].
Qed.

(** A loop that does not throw passes through the body for each of its
    responses, with the index of that response. *)
Lemma scoreLoop_reaches show cfg world request plans :
  forall responses tally index tally' i response,
    scoreLoop show cfg world request plans tally index responses = (tally', None) ->
    nth_error responses i = Some response ->
    exists before after,
      scoreItem show cfg world request plans before (index + i) response
        = (after, None) /\
      (forall ad, In ad (generated after) -> In ad (generated tally')) /\
      (forall f, In f (failures after) -> In f (failures tally')).
Proof.
  induction responses as [|first later IH]; intros tally index tally' i response Hloop Hnth.
  - destruct i; discriminate.
  - cbn [scoreLoop] in Hloop.
    destruct (scoreItem show cfg world request plans tally index first)
      as [middle [e|]] eqn:Hitem; [discriminate|].
    destruct i as [|i].
    + cbn in Hnth. inversion Hnth; subst.
      exists tally, middle. rewrite Nat.add_0_r.
      split; [exact Hitem|]. eapply scoreLoop_keeps. exact Hloop.
    + cbn in Hnth.
      destruct (IH middle (S index) tally' i response Hloop Hnth)
        as [before [after [Hstep Hkeep]]].
      exists before, after.
      replace (index + S i)%nat with (S index + i)%nat by lia.
      split; [exact Hstep|exact Hkeep].
Qed.

(** C8. For an item that came back with a video: a score strictly below
    70 adds one failed record with code QualityTooLow and leaves the
    generated list and the ledger as they were; a score of 70 or more
    adds the item to the generated list, appends exactly one entry to the
    ledger (of the amount shown as the ad's cost) and leaves the failed
    list as it was. Over a whole loop that does not throw, every response
    adds exactly one record to the two lists together, the ledger grows
    by exactly as many entries as ads were generated, and the record made
    for an item is still in its list when the loop ends. *)
Theorem quality_gate_at_70 :
  (forall show cfg world request plans tally index response videoUrl plan ratio,
     resp_status response <> failed ->
     truthy (resp_videoUrl response) = Some videoUrl ->
     at_index plans index = Some plan ->
     plan_aspectRatio plan = Some ratio ->
     (overall (qualityOf world index) < 70 ->
        scoreItem show cfg world request plans tally index response =
          ({| ledger := ledger tally;
              generated := generated tally;
              failures :=
                (failures tally ++
                 [qualityTooLowAd show index (qualityOf world index) plan])%list |},
           None) /\
        failed_errorCode (qualityTooLowAd show index (qualityOf world index) plan)
          = "QualityTooLow"%string /\
        failed_id (qualityTooLowAd show index (qualityOf world index) plan)
          = adId index) /\
     (70 <= overall (qualityOf world index) ->
        exists recorded entry ad,
          scoreItem show cfg world request plans tally index response =
            ({| ledger := recorded;
                generated := (generated tally ++ [ad])%list;
                failures := failures tally |},
             None) /\
          CostTracker.costs recorded =
            (CostTracker.costs (ledger tally) ++ [entry])%list /\
          CostTracker.amount entry = cost (ad_metadata ad) /\
          ad_id ad = adId index /\
          ad_qualityScore ad = overall (qualityOf world index))) /\
  (forall show cfg world request plans responses tally index tally',
     scoreLoop show cfg world request plans tally index responses = (tally', None) ->
     (List.length (generated tally') + List.length (failures tally'))%nat =
       (List.length (generated tally) + List.length (failures tally)
        + List.length responses)%nat /\
     (List.length (CostTracker.costs (ledger tally'))
        - List.length (CostTracker.costs (ledger tally)))%nat =
       (List.length (generated tally') - List.length (generated tally))%nat) /\
  (forall show cfg world request plans responses tally tally'
          i response videoUrl plan ratio,
     scoreLoop show cfg world request plans tally 0 responses = (tally', None) ->
     nth_error responses i = Some response ->
     resp_status response <> failed ->
     truthy (resp_videoUrl response) = Some videoUrl ->
     at_index plans i = Some plan ->
     plan_aspectRatio plan = Some ratio ->
     (overall (qualityOf world i) < 70 ->
        In (qualityTooLowAd show i (qualityOf world i) plan) (failures tally')) /\
     (70 <= overall (qualityOf world i) ->
        exists ad, In ad (generated tally') /\ ad_id ad = adId i /\
                   ad_qualityScore ad = overall (qualityOf world i))).
Proof.
  assert (Hitem :
    forall show cfg world request plans tally index response videoUrl plan ratio,
     resp_status response <> failed ->
     truthy (resp_videoUrl response) = Some videoUrl ->
     at_index plans index = Some plan ->
     plan_aspectRatio plan = Some ratio ->
     (overall (qualityOf world index) < 70 ->
        scoreItem show cfg world request plans tally index response =
          ({| ledger := ledger tally;
              generated := generated tally;
              failures :=
                (failures tally ++
                 [qualityTooLowAd show index (qualityOf world index) plan])%list |},
           None) /\
        failed_errorCode (qualityTooLowAd show index (qualityOf world index) plan)
          = "QualityTooLow"%string /\
        failed_id (qualityTooLowAd show index (qualityOf world index) plan)
          = adId index) /\
     (70 <= overall (qualityOf world index) ->
        exists recorded entry ad,
          scoreItem show cfg world request plans tally index response =
            ({| ledger := recorded;
                generated := (generated tally ++ [ad])%list;
                failures := failures tally |},
             None) /\
          CostTracker.costs recorded =
            (CostTracker.costs (ledger tally) ++ [entry])%list /\
          CostTracker.amount entry = cost (ad_metadata ad) /\
          ad_id ad = adId index /\
          ad_qualityScore ad = overall (qualityOf world index))).
  2: { split; [exact Hitem|]. split.
    - intros show cfg world request plans responses tally index tally' Hloop.
      apply scoreLoop_accounts in Hloop.
      destruct Hloop as [added [Hgen [_ [Hlen Hcount]]]].
      split; [exact Hcount|].
      rewrite Hlen, Hgen, length_app. lia.
    - intros show cfg world request plans responses tally tally'
        i response videoUrl plan ratio Hloop Hnth Hstatus Hurl Hplan Hratio.
      eapply scoreLoop_reaches in Hloop; [|exact Hnth].
      destruct Hloop as [before [after [Hstep [Hgen Hfail]]]].
      cbn [Nat.add] in Hstep.
      destruct (Hitem show cfg world request plans before i response videoUrl
                  plan ratio Hstatus Hurl Hplan Hratio) as [Hlow Hhigh].
      split.
      + intros Hscore. destruct (Hlow Hscore) as [Heq _].
        rewrite Heq in Hstep. inversion Hstep; subst.
        apply Hfail. cbn [failures]. apply in_or_app. right. left. reflexivity.
      + intros Hscore.
        destruct (Hhigh Hscore) as [recorded [entry [ad [Heq [_ [_ [Hid Hq]]]]]]].
        rewrite Heq in Hstep. inversion Hstep; subst.
        exists ad. split; [|split; assumption].
        apply Hgen. cbn [generated]. apply in_or_app. right. left. reflexivity. }
  - intros show cfg world request plans tally index response videoUrl plan ratio
      Hstatus Hurl Hplan Hratio.
    split.
    + intros Hlow. apply Qltb_lt in Hlow.
      split; [|split; reflexivity].
      unfold scoreItem. rewrite Hurl, Hplan, Hlow.
      destruct (resp_status response); [reflexivity|reflexivity|reflexivity|congruence].
    + intros Hhigh. apply Qltb_ge in Hhigh.
      eexists. eexists. eexists.
      split; [|split; [|split; [|split]]].
      * unfold scoreItem. rewrite Hurl, Hplan, Hhigh, Hratio.
        destruct (resp_status response);
          [reflexivity|reflexivity|reflexivity|congruence].
      * reflexivity.
      * reflexivity.
      * reflexivity.
      * reflexivity.
Qed.

(** Scores 69 and 70 on the first item of a call. *)
Lemma quality_gate_at_70_witness :
  failures (fst (scoreItem showWhole someConfig (scoredCall 69) (adsRequest 1)
                   [somePlan] emptyTally 0 videoResponse))
    = [qualityTooLowAd showWhole 0 (scoring 69) somePlan] /\
  List.length
    (generated (fst (scoreItem showWhole someConfig (scoredCall 70) (adsRequest 1)
                       [somePlan] emptyTally 0 videoResponse))) = 1%nat.
Proof.
  split.
  - destruct (proj1 quality_gate_at_70 showWhole someConfig (scoredCall 69)
                (adsRequest 1) [somePlan] emptyTally 0%nat videoResponse
                "https://cdn/video.mp4"%string somePlan Ratio9x16) as [Hlow _].
    + discriminate.
    + reflexivity.
    + reflexivity.
    + reflexivity.
    + destruct Hlow as [Hitem _]; [reflexivity|].
      rewrite Hitem. reflexivity.
  - destruct (proj1 quality_gate_at_70 showWhole someConfig (scoredCall 70)
                (adsRequest 1) [somePlan] emptyTally 0%nat videoResponse
                "https://cdn/video.mp4"%string somePlan Ratio9x16) as [_ Hhigh].
    + discriminate.
    + reflexivity.
    + reflexivity.
    + reflexivity.
    + destruct Hhigh as [recorded [entry [ad [Hitem _]]]]; [discriminate|].
      rewrite Hitem. reflexivity.
Defined.

End PipelineFacts.

(* ================================================================== *)
(** * Part III: further properties of the code                         *)
(* ================================================================== *)

(* ------------------------------------------------------------------ *)
(** ** Retry executor: outcomes, bounds, batches *)

Section RetryMore.
Import Retry.

Lemma calls_actions trace : calls (actions trace) = calls trace.
Proof.
  unfold calls, actions.
  induction trace as [|e t IH]; [reflexivity|].
  destruct e; cbn; [exact IH | f_equal; exact IH | exact IH].
Qed.

Lemma calls_schedule config k : calls (retrySchedule config k) = seq 0 (S k).
Proof.
  unfold retrySchedule. cbn [calls flat_map app seq]. f_equal.
  generalize 1%nat. induction k as [|k IH]; intros s; [reflexivity|].
  cbn. f_equal. apply IH.
Qed.

(** The sleeps and calls of any run follow the schedule of some number
    of retries within the limit. *)
Lemma withRetry_follows_schedule T (fn : nat -> Settled T) config context :
  exists k, (k <= maxRetries config)%nat /\
    actions (fst (withRetry fn config context)) = retrySchedule config k.
Proof.
  unfold withRetry, retrySchedule. cbn [retryLoop].
  replace (0 <? 0)%nat with false by reflexivity.
  destruct (fn 0%nat) as [v|e]; [exists 0%nat; split; [lia|reflexivity]|].
  destruct (negb (isRetryableError e (retryableErrors config))).
  { exists 0%nat. split; [lia|].
    cbn [fst app]. rewrite actions_cons_call, actions_reportFatal.
    reflexivity. }
  destruct (Nat.eqb_spec 0 (maxRetries config)) as [Heq|Hne];
    [exists 0%nat; split; [lia|reflexivity]|].
  destruct (@retryLoop_schedule T fn config context (maxRetries config) 0%nat (Some e))
    as [k [Hk Hact]]; [lia|lia|].
  destruct (retryLoop fn config context (maxRetries config) 1 (Some e))
    as [later result] eqn:Hloop.
  exists k. split; [lia|].
  cbn [fst] in *.
  change (actions ([] ++ [ECall 0; ELog WARN] ++ later))
    with (ECall 0 :: actions later).
  rewrite Hact. replace (k - 0)%nat with k by lia. reflexivity.
Qed.

(** X1. The operation is invoked at least once and at most maxRetries + 1
    times, in order, whatever it does. *)
Theorem withRetry_call_bound T (fn : nat -> Settled T) config context :
  exists n, (1 <= n <= S (maxRetries config))%nat /\
    calls (fst (withRetry fn config context)) = seq 0 n.
Proof.
  destruct (withRetry_follows_schedule fn config context) as [k [Hk Hact]].
  exists (S k). split; [lia|].
  rewrite <- calls_actions, Hact. apply calls_schedule.
Qed.

(** While every invocation before iteration [k] fails in a retryable way,
    the loop arrives at iteration [k]. *)
Lemma retryLoop_arrives T (fn : nat -> Settled T) config context k :
  (k <= maxRetries config)%nat ->
  forall remaining a lastError,
    (a + remaining = S (maxRetries config))%nat ->
    (a <= k)%nat ->
    (forall j, (a <= j < k)%nat ->
       exists e, fn j = Rejected e /\
                 isRetryableError e (retryableErrors config) = true) ->
    exists before lastError',
      retryLoop fn config context remaining a lastError =
        ((before ++ fst (retryLoop fn config context
                           (S (maxRetries config - k)) k lastError'))%list,
         snd (retryLoop fn config context
                (S (maxRetries config - k)) k lastError')) /\
      calls before = seq a (k - a).
Proof.
  intros Hk.
  induction remaining as [|r IH]; intros a lastError Hsum Hle Hprev; [lia|].
  destruct (Nat.eq_dec a k) as [->|Hlt].
  - exists [], lastError.
    replace (S (maxRetries config - k)) with (S r) by lia.
    replace (k - k)%nat with 0%nat by lia.
    split; [|reflexivity].
    cbn [app]. destruct (retryLoop fn config context (S r) k lastError); reflexivity.
  - cbn [retryLoop].
    destruct (Hprev a) as [e [Hfn Hretry]]; [lia|].
    rewrite Hfn, Hretry. cbn [negb].
    destruct (Nat.eqb_spec a (maxRetries config)) as [Heq|Hne]; [lia|].
    destruct (IH (S a) (Some e)) as [before [last' [Hloop Hcalls]]]; [lia|lia| |].
    { intros j Hj. apply Hprev. lia. }
    rewrite Hloop.
    eexists. exists last'. split.
    + rewrite !app_assoc. reflexivity.
    + rewrite !calls_app, calls_before, Hcalls.
      replace (k - a)%nat with (S (k - S a)) by lia. reflexivity.
Qed.

Lemma sleeps_of_calls T (fn : nat -> Settled T) config context k :
  calls (fst (withRetry fn config context)) = seq 0 (S k) ->
  sleeps (fst (withRetry fn config context)) = map (backoffOfRetry config) (seq 1 k).
Proof.
  intros Hcalls.
  destruct (withRetry_follows_schedule fn config context) as [k' [_ Hact]].
  assert (k' = k).
  { rewrite <- calls_actions, Hact, calls_schedule in Hcalls.
    apply (f_equal (@List.length nat)) in Hcalls.
    rewrite !length_seq in Hcalls. lia. }
  subst k'. rewrite <- sleeps_actions, Hact. apply sleeps_schedule.
Qed.

(** X2. If the first [k] invocations fail in a retryable way and the next
    one returns [v], [withRetry] returns [v] after exactly [k + 1]
    invocations and the [k] backoff sleeps of retries 1..k. *)
Theorem withRetry_succeeds_after_retries T (fn : nat -> Settled T) config context k v :
  (k <= maxRetries config)%nat ->
  (forall j, (j < k)%nat ->
     exists e, fn j = Rejected e /\
               isRetryableError e (retryableErrors config) = true) ->
  fn k = Fulfilled v ->
  snd (withRetry fn config context) = Fulfilled v /\
  calls (fst (withRetry fn config context)) = seq 0 (S k) /\
  sleeps (fst (withRetry fn config context)) = map (backoffOfRetry config) (seq 1 k).
Proof.
  intros Hk Hprev Hok.
  destruct (@retryLoop_arrives T fn config context k Hk
              (S (maxRetries config)) 0%nat None) as [before [last' [Hloop Hcalls]]];
    [lia|lia| |].
  { intros j Hj. apply Hprev. lia. }
  assert (Hres : snd (withRetry fn config context) = Fulfilled v /\
                 calls (fst (withRetry fn config context)) = seq 0 (S k)).
  { unfold withRetry. rewrite Hloop. cbn [retryLoop fst snd]. rewrite Hok.
    cbn [fst snd]. split; [reflexivity|].
    rewrite !calls_app, calls_before, Hcalls.
    replace (k - 0)%nat with k by lia. cbn [calls flat_map app].
    rewrite seq_S. reflexivity. }
  destruct Hres as [Hres Hc].
  split; [exact Hres|]. split; [exact Hc|].
  apply sleeps_of_calls, Hc.
Qed.

Lemma withRetry_succeeds_after_retries_witness :
  snd (withRetry (fun j => if (j <? 2)%nat
                           then Rejected (newError "APITimeout")
                           else Fulfilled 7%nat)
                 defaultRetryConfig "op") = Fulfilled 7%nat.
Proof.
  refine (proj1 (@withRetry_succeeds_after_retries nat _ defaultRetryConfig "op"
                   2%nat 7%nat _ _ _)).
  - cbn. lia.
  - intros j Hj. exists (newError "APITimeout").
    destruct j as [|[|j]]; [split; reflexivity|split; reflexivity|lia].
  - reflexivity.
Defined.

(** X3. If every one of the maxRetries + 1 invocations fails in a
    retryable way, [withRetry] rejects with a new [Error] whose message
    names the context, the retry count and the message of the last
    failure, after exactly maxRetries + 1 invocations. *)
Theorem withRetry_exhausted T (fn : nat -> Settled T) config context last :
  (forall j, (j < maxRetries config)%nat ->
     exists e, fn j = Rejected e /\
               isRetryableError e (retryableErrors config) = true) ->
  fn (maxRetries config) = Rejected last ->
  isRetryableError last (retryableErrors config) = true ->
  snd (withRetry fn config context) =
    Rejected (exhaustedError config context (Some last)) /\
  calls (fst (withRetry fn config context)) = seq 0 (S (maxRetries config)) /\
  sleeps (fst (withRetry fn config context)) =
    map (backoffOfRetry config) (seq 1 (maxRetries config)).
Proof.
  intros Hprev Hlast Hretry.
  destruct (@retryLoop_arrives T fn config context (maxRetries config) (le_n _)
              (S (maxRetries config)) 0%nat None) as [before [last' [Hloop Hcalls]]];
    [lia|lia| |].
  { intros j Hj. apply Hprev. lia. }
  assert (Hres : snd (withRetry fn config context) =
                   Rejected (exhaustedError config context (Some last)) /\
                 calls (fst (withRetry fn config context))
                   = seq 0 (S (maxRetries config))).
  { unfold withRetry. rewrite Hloop. cbn [retryLoop fst snd].
    rewrite Hlast, Hretry, Nat.eqb_refl. cbn [negb fst snd].
    split; [reflexivity|].
    rewrite !calls_app, calls_before, Hcalls.
    replace (maxRetries config - 0)%nat with (maxRetries config) by lia.
    cbn [calls flat_map app]. rewrite seq_S. reflexivity. }
  destruct Hres as [Hres Hc].
  split; [exact Hres|]. split; [exact Hc|].
  apply sleeps_of_calls, Hc.
Qed.

Lemma withRetry_exhausted_witness :
  snd (withRetry (fun _ => @Rejected nat (newError "NetworkError: reset"))
                 defaultRetryConfig "op")
    = Rejected (exhaustedError defaultRetryConfig "op"
                  (Some (newError "NetworkError: reset"))).
Proof.
  refine (proj1 (@withRetry_exhausted nat _ defaultRetryConfig "op"
                   (newError "NetworkError: reset") _ _ _)).
  - intros j Hj. exists (newError "NetworkError: reset"). split; reflexivity.
  - reflexivity.
  - reflexivity.
Defined.

(** X4. The delay never exceeds maxDelay, and with a multiplier of at least
    1 and a non-negative initial delay it does not shrink from one
    attempt to a later one. *)
Theorem calculateBackoffDelay_capped_monotone config :
  (forall attempt, calculateBackoffDelay attempt config <= maxDelay config) /\
  (1 <= backoffMultiplier config ->
   0 <= initialDelay config ->
   forall attempt later, (attempt <= later)%nat ->
     calculateBackoffDelay attempt config <= calculateBackoffDelay later config).
Proof.
  split.
  - intros attempt. apply Q.le_min_r.
  - intros Hmult Hinit attempt later Hle. unfold calculateBackoffDelay.
    apply Q.min_le_compat_r.
    rewrite !(Qmult_comm (initialDelay config)).
    apply Qmult_le_compat_r; [|exact Hinit].
    apply Qpower_le_compat_l; [lia|exact Hmult].
Qed.

Lemma calculateBackoffDelay_capped_monotone_witness :
  calculateBackoffDelay 1 defaultRetryConfig <= calculateBackoffDelay 5 defaultRetryConfig.
Proof.
  apply (proj2 (calculateBackoffDelay_capped_monotone defaultRetryConfig)).
  - cbn. discriminate.
  - cbn. discriminate.
  - lia.
Defined.

Lemma includes_app_r prefix s sub :
  includes s sub = true -> includes (prefix ++ s) sub = true.
Proof.
  intros H. induction prefix as [|c rest IH]; [exact H|].
  cbn [append includes]. rewrite IH. apply orb_true_r.
Qed.

(** X5. The error thrown when the retries are used up carries the message
    of the last failure, so whenever that failure was retryable because of
    its message, the new error is retryable under the same list again. *)
Theorem exhaustedError_still_retryable config context name message retryable :
  existsb (fun r => includes message r) retryable = true ->
  isRetryableError (exhaustedError config context (Some (ErrorObj name message)))
                   retryable = true.
Proof.
  intros Hmatch. unfold exhaustedError, newError, isRetryableError, messageOrString.
  apply existsb_exists in Hmatch. destruct Hmatch as [r [Hin Hinc]].
  apply existsb_exists. exists r. split; [exact Hin|].
  apply orb_true_iff. left.
  repeat apply includes_app_r. exact Hinc.
Qed.

Lemma exhaustedError_still_retryable_witness :
  isRetryableError
    (exhaustedError defaultRetryConfig "op" (Some (newError "APITimeout")))
    (retryableErrors defaultRetryConfig) = true.
Proof.
  apply exhaustedError_still_retryable. reflexivity.
Defined.

(** How [collectSettled] sorts settled results, from any index on. *)
Lemma collectSettled_sorts T (results : list (Settled T)) :
  forall index acc,
    batchSuccessful (collectSettled results index acc) =
      (batchSuccessful acc ++
       flat_map (fun r => match r with Fulfilled v => [v] | Rejected _ => [] end)
                results)%list /\
    (forall i e,
       In (i, e) (batchFailed (collectSettled results index acc)) <->
       In (i, e) (batchFailed acc) \/
       ((index <= i)%nat /\ nth_error results (i - index) = Some (Rejected e))) /\
    (List.length (batchSuccessful (collectSettled results index acc))
     + List.length (batchFailed (collectSettled results index acc)))%nat =
      (List.length (batchSuccessful acc) + List.length (batchFailed acc)
       + List.length results)%nat.
Proof.
  induction results as [|r later IH]; intros index acc.
  - cbn. rewrite app_nil_r. split; [reflexivity|]. split; [|lia].
    intros i e. split; [intros H; left; exact H|].
    intros [H|[_ H]]; [exact H|]. destruct (i - index)%nat; discriminate.
  - destruct r as [v|reason]; cbn [collectSettled flat_map].
    + destruct (IH (S index)
                  {| batchSuccessful := (batchSuccessful acc ++ [v])%list;
                     batchFailed := batchFailed acc |}) as [Hs [Hf Hlen]].
      cbn [batchSuccessful batchFailed] in *.
      split; [rewrite Hs, <- app_assoc; reflexivity|]. split.
      * intros i e. rewrite Hf. split.
        -- intros [H|[Hi Hnth]]; [left; exact H|right]. split; [lia|].
           replace (i - index)%nat with (S (i - S index)) by lia. exact Hnth.
        -- intros [H|[Hi Hnth]]; [left; exact H|].
           destruct (i - index)%nat as [|d] eqn:Hd; [discriminate|].
           right. split; [lia|]. replace (i - S index)%nat with d by lia. exact Hnth.
      * rewrite Hlen, length_app. cbn. lia.
    + destruct (IH (S index)
                  {| batchSuccessful := batchSuccessful acc;
                     batchFailed := (batchFailed acc ++ [(index, reason)])%list |})
        as [Hs [Hf Hlen]].
      cbn [batchSuccessful batchFailed] in *.
      split; [rewrite Hs; reflexivity|]. split.
      * intros i e. rewrite Hf, in_app_iff. cbn [In]. split.
        -- intros [[H|[H|[]]]|[Hi Hnth]].
           ++ left; exact H.
           ++ inversion H; subst. right. split; [lia|].
              rewrite Nat.sub_diag. reflexivity.
           ++ right. split; [lia|].
              replace (i - index)%nat with (S (i - S index)) by lia. exact Hnth.
        -- intros [H|[Hi Hnth]]; [left; left; exact H|].
           destruct (i - index)%nat as [|d] eqn:Hd.
           ++ cbn in Hnth. inversion Hnth; subst.
              left. right. left. f_equal. lia.
           ++ right. split; [lia|]. replace (i - S index)%nat with d by lia. exact Hnth.
      * rewrite Hlen, length_app. cbn. lia.
Qed.

Lemma settleAll_nth T (tasks : list (nat -> Settled T)) config :
  forall index i,
    nth_error (settleAll tasks config index) i =
      option_map (fun task => snd (withRetry task config (taskLabel (index + i))))
                 (nth_error tasks i).
Proof.
  induction tasks as [|task later IH]; intros index i.
  - destruct i; reflexivity.
  - destruct i as [|i]; cbn [settleAll nth_error option_map].
    + rewrite Nat.add_0_r. reflexivity.
    + rewrite IH. replace (S index + i)%nat with (index + S i)%nat by lia. reflexivity.
Qed.

Lemma settleAll_length T (tasks : list (nat -> Settled T)) config :
  forall index, List.length (settleAll tasks config index) = List.length tasks.
Proof.
  induction tasks as [|task later IH]; intros index; [reflexivity|].
  cbn. rewrite IH. reflexivity.
Qed.

(** X6. [withBatchRetry] accounts for every task exactly once: the
    successes and the failures together are as many as the tasks, and
    [(i, e)] is among the failures exactly when task [i], run under
    [withRetry] with label "Task i+1", is rejected with [e]. One task's
    failure does not keep the others from being reported. *)
Theorem withBatchRetry_accounts_for_every_task
    T (tasks : list (nat -> Settled T)) config :
  (List.length (batchSuccessful (withBatchRetry tasks config))
   + List.length (batchFailed (withBatchRetry tasks config)))%nat
    = List.length tasks /\
  (forall i e,
     In (i, e) (batchFailed (withBatchRetry tasks config)) <->
     exists task,
       nth_error tasks i = Some task /\
       snd (withRetry task config (taskLabel i)) = Rejected e).
Proof.
  unfold withBatchRetry.
  destruct (collectSettled_sorts (settleAll tasks config 0) 0
              {| batchSuccessful := []; batchFailed := [] |}) as [_ [Hf Hlen]].
  cbn [batchSuccessful batchFailed List.length] in *.
  split; [rewrite Hlen, settleAll_length; reflexivity|].
  intros i e. rewrite Hf, Nat.sub_0_r, settleAll_nth. cbn [Nat.add]. split.
  - intros [[]|[_ H]].
    destruct (nth_error tasks i) as [task|]; [|discriminate].
    cbn [option_map] in H. injection H as H. exists task. split; [reflexivity|exact H].
  - intros [task [Hnth Hres]]. right. split; [lia|].
    rewrite Hnth. cbn [option_map]. rewrite Hres. reflexivity.
Qed.

(** X30. The first failure that is not retryable ends [withRetry]: if the
    invocations before iteration [k] fail in a retryable way and the one
    in iteration [k] throws [e] that is not retryable, then the operation
    has been invoked k + 1 times with k sleeps, and nothing follows the
    last invocation but the report of [e]. When the logger can print [e]
    (every [Error] instance, every value [JSON.stringify] accepts),
    [withRetry] rejects with [e] itself, unwrapped; when the logger
    throws, [withRetry] rejects with what the logger threw. *)
Theorem withRetry_stops_at_fatal_error T (fn : nat -> Settled T) config context k e :
  (k <= maxRetries config)%nat ->
  (forall j, (j < k)%nat ->
     exists e', fn j = Rejected e' /\
                isRetryableError e' (retryableErrors config) = true) ->
  fn k = Rejected e ->
  isRetryableError e (retryableErrors config) = false ->
  calls (fst (withRetry fn config context)) = seq 0 (S k) /\
  List.length (sleeps (fst (withRetry fn config context))) = k /\
  (loggerErrorThrows e = None ->
     snd (withRetry fn config context) = Rejected e /\
     exists before,
       fst (withRetry fn config context) = before ++ [ECall k; ELog ERROR]) /\
  (forall failure, loggerErrorThrows e = Some failure ->
     snd (withRetry fn config context) = Rejected failure /\
     exists before, fst (withRetry fn config context) = before ++ [ECall k]).
Proof.
  intros Hk Hprev Hthrow Hfatal.
  destruct (@retryLoop_fatal T fn config context k e Hk Hthrow Hfatal
              (S (maxRetries config)) 0%nat None)
    as [before [Hloop [Hcalls Hsleeps]]]; [lia|lia| |].
  { intros j Hj. apply Hprev. lia. }
  unfold withRetry. rewrite Hloop. cbn [fst snd].
  replace (k - 0)%nat with k in * by lia.
  change (before ++ ECall k :: fst (reportFatal e))
    with (before ++ [ECall k] ++ fst (reportFatal e)).
  rewrite !calls_app, !sleeps_app, !length_app, calls_reportFatal,
    sleeps_reportFatal, Hcalls, Hsleeps.
  split; [|split; [|split]].
  - rewrite seq_S. reflexivity.
  - cbn. lia.
  - intros Hprints. unfold reportFatal. rewrite Hprints.
    split; [reflexivity|]. exists before. reflexivity.
  - intros failure Hfails. unfold reportFatal. rewrite Hfails.
    split; [reflexivity|]. exists before. reflexivity.
Qed.

(** An operation that fails with an error no retry can cure. *)
Lemma withRetry_stops_at_fatal_error_witness :
  calls (fst (withRetry (fun _ => @Rejected nat (newError "Invalid API key"))
                defaultRetryConfig "op")) = [0%nat] /\
  snd (withRetry (fun _ => @Rejected nat (newError "Invalid API key"))
         defaultRetryConfig "op") = Rejected (newError "Invalid API key").
Proof.
  destruct (@withRetry_stops_at_fatal_error nat
              (fun _ => Rejected (newError "Invalid API key"))
              defaultRetryConfig "op" 0 (newError "Invalid API key"))
    as [Hcalls [_ [Hprints _]]].
  - cbn. lia.
  - intros j Hj. lia.
  - reflexivity.
  - reflexivity.
  - destruct (Hprints eq_refl) as [Hres _].
    split; [exact Hcalls | exact Hres].
Defined.

End RetryMore.

(* ------------------------------------------------------------------ *)
(** ** Cost ledger: pricing, budget, estimate *)

Section CostMore.
Import CostTracker.

Lemma perSecond_positive r : 0 < perSecond SORA2_PRICING r.
Proof. destruct r; reflexivity. Qed.

(** X7. A longer video never costs less, and at equal (non-negative)
    duration 720p never costs more than 1080p. *)
Theorem calculateVideoCost_monotone :
  (forall d d' r, d <= d' -> calculateVideoCost d r <= calculateVideoCost d' r) /\
  (forall d, 0 <= d -> calculateVideoCost d R720p <= calculateVideoCost d R1080p).
Proof.
  split.
  - intros d d' r Hd. unfold calculateVideoCost.
    apply Q.max_le_compat_r.
    apply Qmult_le_compat_r; [exact Hd|]. apply Qlt_le_weak, perSecond_positive.
  - intros d Hd. unfold calculateVideoCost. cbn [perSecond SORA2_PRICING minimumCharge].
    apply Q.max_le_compat_r. lra.
Qed.

Lemma calculateVideoCost_monotone_witness :
  calculateVideoCost 12 R720p <= calculateVideoCost 12 R1080p.
Proof.
  apply (proj2 calculateVideoCost_monotone). discriminate.
Defined.

(** X8. The tracker reports "over budget" exactly when no budget
    remains. *)
Theorem isOverBudget_iff_nothing_remains st :
  isOverBudget st = true <-> getRemainingBudget st == 0.
Proof.
  unfold isOverBudget, getRemainingBudget. rewrite Qle_bool_iff. split.
  - intros H. apply Q.max_l. lra.
  - intros H.
    pose proof (Q.le_max_r 0 (monthlyBudget st - totalCost st)) as Hr.
    rewrite H in Hr. lra.
Qed.

(** X10. With a positive budget, [recordCost] writes its warning whenever
    the total, with the new entry, has reached 15/16 of the budget (so
    whenever the budget is reached or exceeded), and writes none while
    that total is at most 7/8 of the budget. The threshold of the code,
    90%, lies between the two, at a distance no rounding of the quotient
    bridges. The cost is recorded in either case. *)
Theorem recordCost_warns_near_the_budget now amt desc st :
  0 < monthlyBudget st ->
  ((15 # 16) * monthlyBudget st <= totalCost st + amt ->
     snd (recordCost now amt desc st) = [INFO; WARN]) /\
  (totalCost st + amt <= (7 # 8) * monthlyBudget st ->
     snd (recordCost now amt desc st) = [INFO]) /\
  getCostHistory (fst (recordCost now amt desc st)) =
    getCostHistory st
    ++ [{| timestamp := now; amount := amt; description := desc |}].
Proof.
  intros Hbudget. unfold recordCost, usageAtLeast90.
  cbn [fst snd totalCost monthlyBudget getCostHistory costs].
  assert (Hnz : Qeq_bool (monthlyBudget st) 0 = false).
  { apply not_true_iff_false. intros H. apply Qeq_bool_iff in H. lra. }
  rewrite Hnz.
  assert (Hiff : 90 <= (totalCost st + amt) / monthlyBudget st * 100 <->
                 90 * monthlyBudget st <= 100 * (totalCost st + amt)).
  { assert (Heq : (totalCost st + amt) / monthlyBudget st * 100 * monthlyBudget st
                  == 100 * (totalCost st + amt)) by (field; lra).
    rewrite <- Heq. symmetry. apply Qmult_le_r. exact Hbudget. }
  split; [|split; [|reflexivity]]; intros H.
  - assert (Hb : 90 <= (totalCost st + amt) / monthlyBudget st * 100)
      by (apply Hiff; lra).
    apply Qle_bool_iff in Hb. rewrite Hb. reflexivity.
  - destruct (Qle_bool 90 ((totalCost st + amt) / monthlyBudget st * 100)) eqn:Hb;
      [|reflexivity].
    apply Qle_bool_iff, Hiff in Hb. lra.
Qed.

Lemma recordCost_warns_near_the_budget_witness :
  snd (recordCost 0 5000 "all of it" (create 5000)) = [INFO; WARN] /\
  snd (recordCost 0 4000 "most of it" (create 5000)) = [INFO].
Proof.
  destruct (@recordCost_warns_near_the_budget 0%Z 5000 "all of it" (create 5000))
    as [Hwarn _]; [reflexivity|].
  destruct (@recordCost_warns_near_the_budget 0%Z 4000 "most of it" (create 5000))
    as [_ [Hquiet _]]; [reflexivity|].
  split; [apply Hwarn; discriminate|apply Hquiet; discriminate].
Defined.

End CostMore.

(* ------------------------------------------------------------------ *)
(** ** Rate limiter: what a single call guarantees *)

Section RateLimitMore.
Import Sora2.

Lemma keptStamps_fresh now stamps x :
  In x (keptStamps now stamps) -> (now - 60000 < x)%Z.
Proof.
  unfold keptStamps. intros H. apply filter_In in H.
  destruct H as [_ H]. apply Z.ltb_lt in H. exact H.
Qed.

Lemma waitForRateLimit_stamps now stamps :
  fst (waitForRateLimit now stamps) = (keptStamps now stamps ++ [now])%list.
Proof. reflexivity. Qed.

(** X11. After a call the client holds the entry time as its newest stamp
    and only stamps younger than 60000 ms at entry; a call that did not
    have to sleep leaves at most 3 stamps. *)
Theorem waitForRateLimit_drops_expired now stamps :
  (exists kept, fst (waitForRateLimit now stamps) = (kept ++ [now])%list) /\
  (forall x, In x (fst (waitForRateLimit now stamps)) -> (now - 60000 < x)%Z) /\
  (snd (waitForRateLimit now stamps) = None ->
     (List.length (fst (waitForRateLimit now stamps)) <= 3)%nat).
Proof.
  split; [exists (keptStamps now stamps); reflexivity|]. split.
  - intros x Hin. rewrite waitForRateLimit_stamps in Hin.
    apply in_app_or in Hin. destruct Hin as [Hin|[<-|[]]]; [|lia].
    eapply keptStamps_fresh, Hin.
  - intros Hnone.
    destruct (le_lt_dec 3 (List.length (keptStamps now stamps))) as [Hfull|Hfree].
    + destruct (waitForRateLimit_full now stamps Hfull) as [o [rest [_ [_ Heq]]]].
      rewrite Heq in Hnone. discriminate.
    + rewrite waitForRateLimit_stamps, length_app. cbn. lia.
Qed.

Lemma waitForRateLimit_drops_expired_witness :
  (List.length (fst (waitForRateLimit 70000 [5000; 20000; 30000]%Z)) <= 3)%nat.
Proof.
  apply (proj2 (proj2 (waitForRateLimit_drops_expired 70000 [5000; 20000; 30000]%Z))).
  reflexivity.
Defined.

(** X12. When the call sleeps, it sleeps for a positive time; if no recorded
    stamp lies in the future, for at most 60000 ms. *)
Theorem waitForRateLimit_wait_bounds now stamps wait :
  snd (waitForRateLimit now stamps) = Some wait ->
  (0 < wait)%Z /\
  (Forall (fun x => (x <= now)%Z) stamps -> (wait <= 60000)%Z).
Proof.
  intros Hsome.
  destruct (le_lt_dec 3 (List.length (keptStamps now stamps))) as [Hfull|Hfree].
  - destruct (waitForRateLimit_full now stamps Hfull)
      as [oldest [rest [Hkept [Hpos Heq]]]].
    rewrite Heq in Hsome. cbn [snd] in Hsome.
    assert (Hwait : wait = (60000 - (now - oldest))%Z) by congruence.
    rewrite Hwait. clear Hwait Hsome.
    split; [exact Hpos|].
    intros Hpast.
    assert (Hin : In oldest stamps).
    { assert (H : In oldest (keptStamps now stamps)) by (rewrite Hkept; left; reflexivity).
      unfold keptStamps in H. apply filter_In in H. apply H. }
    rewrite Forall_forall in Hpast. specialize (Hpast oldest Hin).
    cbn beta in Hpast. lia.
  - rewrite waitForRateLimit_free in Hsome by exact Hfree. discriminate.
Qed.

Lemma waitForRateLimit_wait_bounds_witness :
  snd (waitForRateLimit 3 [0; 1; 2]%Z) = Some 59997%Z /\ (0 < 59997 <= 60000)%Z.
Proof.
  split; [reflexivity|].
  destruct (@waitForRateLimit_wait_bounds 3%Z [0; 1; 2]%Z 59997%Z) as [Hpos Hle].
  - reflexivity.
  - split; [exact Hpos|]. apply Hle. repeat constructor; discriminate.
Defined.

End RateLimitMore.

(* ------------------------------------------------------------------ *)
(** ** Batches *)

Section BatchMore.
Import Retry Sora2.

Lemma ceil_div_step n c :
  (0 < c)%nat -> (0 < n)%nat ->
  ((n + c - 1) / c = S ((n - c + c - 1) / c))%nat.
Proof.
  intros Hc Hn.
  destruct (le_lt_dec n c) as [Hle|Hgt].
  - replace (n - c + c - 1)%nat with (c - 1)%nat by lia.
    rewrite (Nat.div_small (c - 1) c) by lia.
    replace (n + c - 1)%nat with ((n - 1) + 1 * c)%nat by lia.
    rewrite Nat.div_add by lia. rewrite Nat.div_small by lia. reflexivity.
  - replace (n + c - 1)%nat with ((n - c + c - 1) + 1 * c)%nat by lia.
    rewrite Nat.div_add by lia. lia.
Qed.

Lemma batchesOf_cuts A (c : nat) :
  (0 < c)%nat ->
  forall fuel (items : list A),
    (List.length items <= fuel)%nat ->
    List.concat (batchesOf fuel c items) = items /\
    Forall (fun batch => (1 <= List.length batch <= c)%nat) (batchesOf fuel c items) /\
    List.length (batchesOf fuel c items) = ((List.length items + c - 1) / c)%nat.
Proof.
  intros Hc.
  induction fuel as [|fuel IH]; intros items Hlen.
  - destruct items; [|cbn in Hlen; lia]. cbn.
    rewrite Nat.div_small by lia. repeat split. constructor.
  - destruct items as [|x rest].
    + cbn. rewrite Nat.div_small by lia. repeat split. constructor.
    + cbn [batchesOf].
      destruct (IH (skipn c (x :: rest))) as [Hcat [Hall Hcount]].
      { rewrite length_skipn. cbn [List.length] in *. lia. }
      split; [|split].
      * cbn [List.concat]. rewrite Hcat. apply firstn_skipn.
      * constructor; [|exact Hall].
        rewrite length_firstn. cbn [List.length]. lia.
      * cbn [List.length]. rewrite Hcount, length_skipn.
        symmetry. apply ceil_div_step; [exact Hc|cbn; lia].
Qed.

(** X13. With a positive concurrency the requests are cut into
    ceil(N / concurrency) consecutive batches, none empty and none larger
    than the concurrency, which put end to end give the requests back in
    their order. *)
Theorem batchesOf_partitions A (concurrency : nat) (items : list A) :
  (0 < concurrency)%nat ->
  List.concat (batchesOf (List.length items) concurrency items) = items /\
  Forall (fun batch => (1 <= List.length batch <= concurrency)%nat)
         (batchesOf (List.length items) concurrency items) /\
  List.length (batchesOf (List.length items) concurrency items)
    = ((List.length items + concurrency - 1) / concurrency)%nat.
Proof.
  intros Hc. apply batchesOf_cuts; [exact Hc|lia].
Qed.

Lemma batchesOf_partitions_witness :
  batchesOf 7 3 [1; 2; 3; 4; 5; 6; 7]%nat = [[1; 2; 3]; [4; 5; 6]; [7]]%nat /\
  List.length (batchesOf 7 3 [1; 2; 3; 4; 5; 6; 7]%nat) = 3%nat.
Proof.
  split; [reflexivity|].
  destruct (@batchesOf_partitions nat 3 [1; 2; 3; 4; 5; 6; 7]%nat) as [_ [_ Hcount]];
    [lia|exact Hcount].
Defined.

(** A poll that returns a response returns one that says "completed". *)
Lemma pollJobStatus_fulfilled_completed job jobId now response :
  pollOutcome (pollJobStatus job jobId now) = Fulfilled response ->
  resp_status response = completed.
Proof.
  unfold pollJobStatus. intros Hout.
  destruct (@pollLoop_decided job jobId now 31 now 0) as [n [_ [_ Hcases]]];
    [cbn; lia|lia|].
  destruct Hcases as [[_ [Htimeout _]] | [m [_ [_ [_ [_ [Hset _]]]]]]].
  - rewrite Htimeout in Hout. discriminate.
  - unfold settledBy in Hset. rewrite Hout in Hset.
    destruct (getJobStatus job jobId (0 + m)) as [status|e]; [|discriminate].
    destruct (resp_status status) eqn:Hstatus; try contradiction; try discriminate.
    injection Hset as <-. exact Hstatus.
Qed.

Lemma generate_fulfilled_completed client world now request response :
  settledAs (generate client world now request) = Fulfilled response ->
  resp_status response = completed.
Proof.
  unfold generate.
  destruct (settledAs (generateVideo client world now request)) as [jobId|e];
    cbn [settledAs]; [|discriminate].
  apply pollJobStatus_fulfilled_completed.
Qed.

Lemma startTasks_settled world now :
  forall batch client,
    List.length (snd (startTasks world now client batch)) = List.length batch /\
    Forall (fun p => forall r, snd p = Fulfilled r -> resp_status r = completed)
           (snd (startTasks world now client batch)).
Proof.
  induction batch as [|[index request] later IH]; intros client.
  - cbn. split; [reflexivity|constructor].
  - cbn [startTasks].
    destruct (IH (clientAfter (generate client (world index) now request)))
      as [Hlen Hall].
    destruct (startTasks world now
                (clientAfter (generate client (world index) now request)) later)
      as [client' others].
    cbn [snd List.length] in *. split; [rewrite Hlen; reflexivity|].
    constructor; [|exact Hall].
    cbn [snd]. intros r Hr. eapply generate_fulfilled_completed, Hr.
Qed.

Lemma promiseAll_fulfilled A now (settled : list (Z * Settled A)) t values :
  promiseAll now settled = (t, Fulfilled values) ->
  List.length values = List.length settled /\
  (forall v, In v values -> exists t', In (t', Fulfilled v) settled).
Proof.
  unfold promiseAll.
  destruct (firstRejection settled) as [[t' e']|] eqn:Hfirst; [discriminate|].
  intros H. injection H as _ <-.
  clear t now. induction settled as [|[t0 [v0|e0]] later IH].
  - split; [reflexivity|]. intros v [].
  - cbn in Hfirst. destruct (IH Hfirst) as [Hlen Hin].
    unfold fulfilledValues in *. cbn [flat_map snd app List.length].
    split; [rewrite Hlen; reflexivity|].
    intros v [<-|Hv]; [exists t0; left; reflexivity|].
    destruct (Hin v Hv) as [t' Ht']. exists t'. right. exact Ht'.
  - cbn in Hfirst. destruct (firstRejection later) as [[t' e']|];
      [destruct (t' <? t0)%Z; discriminate|discriminate].
Qed.

Lemma batchLoop_fulfilled world :
  forall batches now client results responses,
    settledAs (batchLoop world now client batches results) = Fulfilled responses ->
    List.length responses = (List.length results + List.length (List.concat batches))%nat /\
    (Forall (fun r => resp_status r = completed) results ->
     Forall (fun r => resp_status r = completed) responses).
Proof.
  induction batches as [|batch later IH]; intros now client results responses Hloop.
  - cbn in Hloop. injection Hloop as <-. cbn. split; [lia|auto].
  - cbn [batchLoop] in Hloop.
    pose proof (startTasks_settled world now batch client) as [Hlen Hall].
    destruct (startTasks world now client batch) as [client' settled].
    cbn [snd] in *.
    destruct (promiseAll now settled) as [t [values|e]] eqn:Hall';
      [|cbn in Hloop; discriminate].
    apply promiseAll_fulfilled in Hall'. destruct Hall' as [Hvalues Hfrom].
    apply IH in Hloop. destruct Hloop as [Hcount Hdone].
    split.
    + rewrite Hcount, length_app, Hvalues, Hlen. cbn [List.concat].
      rewrite length_app. lia.
    + intros Hresults. apply Hdone. apply Forall_app. split; [exact Hresults|].
      apply Forall_forall. intros v Hv.
      destruct (Hfrom v Hv) as [t' Ht'].
      rewrite Forall_forall in Hall. apply (Hall _ Ht'). reflexivity.
Qed.

Lemma generateBatch_fulfilled world now client requests concurrency responses :
  (0 < concurrency)%nat ->
  settledAs (generateBatch world now client requests concurrency)
    = Fulfilled responses ->
  List.length responses = List.length requests /\
  Forall (fun r => resp_status r = completed) responses.
Proof.
  intros Hc Hbatch. unfold generateBatch in Hbatch.
  apply batchLoop_fulfilled in Hbatch. destruct Hbatch as [Hlen Hdone].
  split; [|apply Hdone; constructor].
  rewrite Hlen. cbn [List.length Nat.add].
  set (indexed := combine (seq 0 (List.length requests)) requests) in *.
  assert (Hidx : List.length indexed = List.length requests).
  { subst indexed. rewrite length_combine, length_seq. lia. }
  rewrite <- Hidx.
  destruct (@batchesOf_cuts _ concurrency Hc (List.length indexed) indexed (le_n _))
    as [Hcat _].
  rewrite Hcat. reflexivity.
Qed.

(** X14. When [generateBatch] returns (with a positive concurrency), it
    returns exactly one response per request, and every response says
    "completed": a job that failed or timed out is never among them. *)
Theorem generateBatch_one_completed_response_each
    world now client requests concurrency responses :
  (0 < concurrency)%nat ->
  settledAs (generateBatch world now client requests concurrency)
    = Fulfilled responses ->
  List.length responses = List.length requests /\
  Forall (fun r => resp_status r = completed) responses.
Proof.
  intros Hc Hbatch. eapply generateBatch_fulfilled; eassumption.
Qed.

Lemma generateBatch_one_completed_response_each_witness :
  exists responses,
    settledAs (generateBatch (fun _ => Scenario.accepted Scenario.completingJob) 0
                 {| retryConfig := Retry.defaultRetryConfig; requestTimestamps := [] |}
                 (map (Generator.toSora2Request Scenario.someConfig
                         (Scenario.adsRequest 4))
                      (repeat Scenario.somePlan 4)) 3)
      = Fulfilled responses /\
    List.length responses = 4%nat.
Proof.
  eexists. split; [vm_compute; reflexivity|].
  refine (proj1 (@generateBatch_one_completed_response_each
            (fun _ => Scenario.accepted Scenario.completingJob) 0%Z
            {| retryConfig := Retry.defaultRetryConfig; requestTimestamps := [] |}
            (map (Generator.toSora2Request Scenario.someConfig (Scenario.adsRequest 4))
                 (repeat Scenario.somePlan 4)) 3%nat _ _ _)).
  - lia.
  - vm_compute. reflexivity.
Defined.

End BatchMore.

(* ------------------------------------------------------------------ *)
(** ** Job poller: the first terminal answer decides *)

Section PollMore.
Import Sora2.

(** X15. If the answers to queries 0..m-1 say "in flight", the answer to
    query m does not, and query m is issued no later than 300000 ms after
    the start, then the poll issues exactly the queries 0..m, with a
    10000 ms sleep after each but the last, and ends with what the answer
    to query m decides, when that answer arrives. *)
Theorem pollJobStatus_first_terminal_decides job jobId now m :
  (forall j, (j < m)%nat -> inFlight job jobId j) ->
  ~ inFlight job jobId m ->
  (roundClock job now 0 m - now <= generationTimeout RATE_LIMIT)%Z ->
  pollTrace (pollJobStatus job jobId now) = (pollRounds 0 m ++ [PQuery m])%list /\
  pollFinish (pollJobStatus job jobId now)
    = (roundClock job now 0 m + Z.of_N (statusLatency job m))%Z /\
  settledBy job jobId m (pollOutcome (pollJobStatus job jobId now)).
Proof.
  intros Hflight Hterminal Hclock. unfold pollJobStatus.
  apply (@pollLoop_first_terminal job jobId now m now 0%nat).
  - intros j Hj. apply Hflight. lia.
  - exact Hterminal.
  - exact Hclock.
Qed.

Lemma pollJobStatus_first_terminal_decides_witness :
  pollTrace (pollJobStatus Scenario.completingJob "job-1" 0)
    = [PQuery 0; PSleep 10000; PQuery 1].
Proof.
  refine (proj1 (@pollJobStatus_first_terminal_decides
                   Scenario.completingJob "job-1" 0%Z 1%nat _ _ _)).
  - intros j Hj. assert (j = 0%nat) by lia. subst j.
    eexists. split; [reflexivity|right; reflexivity].
  - intros [status [Hq Hs]]. vm_compute in Hq. injection Hq as <-.
    destruct Hs as [Hs|Hs]; discriminate Hs.
  - vm_compute. discriminate.
Defined.

End PollMore.

(* ------------------------------------------------------------------ *)
(** ** Submission: which HTTP answers are retried *)

Section SubmitMore.
Import Retry Sora2.

Lemma retryLoop_ext T (f g : nat -> Settled T) config context :
  (forall k, f k = g k) ->
  forall remaining attempt lastError,
    retryLoop f config context remaining attempt lastError =
    retryLoop g config context remaining attempt lastError.
Proof.
  intros Hfg. induction remaining as [|r IH]; intros attempt lastError; [reflexivity|].
  cbn [retryLoop]. rewrite Hfg.
  destruct (g attempt) as [v|e]; [reflexivity|].
  destruct (negb (isRetryableError e (retryableErrors config))); [reflexivity|].
  destruct (attempt =? maxRetries config)%nat; [reflexivity|].
  rewrite IH. reflexivity.
Qed.

Lemma generateVideo_rejects client world now request e :
  snd (withRetry (fun k => submitOnce (submitReply world k))
                 (retryConfig client) "Sora2 API generateVideo") = Rejected e ->
  settledAs (generateVideo client world now request) = Rejected e.
Proof.
  intros H. unfold generateVideo.
  destruct (waitForRateLimit now (requestTimestamps client)) as [stamps slept].
  cbn [settledAs]. rewrite H. reflexivity.
Qed.

(** X16. Under the default retry policy a service that keeps answering 429
    (or 408 or 504) is tried maxRetries + 1 times and the call then
    rejects with the wrapped RateLimitExceeded (or APITimeout) error; any
    other non-OK answer whose error text matches no retryable identifier
    is not retried: the call rejects with that "Sora2 API Error" as it
    is. *)
Theorem generateVideo_retries_transient_statuses
    client world now request code body :
  retryConfig client = defaultRetryConfig ->
  (forall k, submitReply world k = SubmitNotOk code body) ->
  (code = 429%nat ->
     settledAs (generateVideo client world now request) =
       Rejected (exhaustedError defaultRetryConfig "Sora2 API generateVideo"
                   (Some (newError "RateLimitExceeded")))) /\
  (code = 408%nat \/ code = 504%nat ->
     settledAs (generateVideo client world now request) =
       Rejected (exhaustedError defaultRetryConfig "Sora2 API generateVideo"
                   (Some (newError "APITimeout")))) /\
  (code <> 429%nat -> code <> 408%nat -> code <> 504%nat ->
   isRetryableError (newError ("Sora2 API Error: " ++ body))
                    (retryableErrors defaultRetryConfig) = false ->
     settledAs (generateVideo client world now request) =
       Rejected (newError ("Sora2 API Error: " ++ body))).
Proof.
  intros Hconfig Hreply.
  assert (Hsame : forall k,
            (fun k => submitOnce (submitReply world k)) k =
            (fun _ => submitOnce (SubmitNotOk code body)) k).
  { intros k. cbn beta. rewrite Hreply. reflexivity. }
  assert (Hrun : withRetry (fun k => submitOnce (submitReply world k))
                   (retryConfig client) "Sora2 API generateVideo" =
                 withRetry (fun _ => submitOnce (SubmitNotOk code body))
                   defaultRetryConfig "Sora2 API generateVideo").
  { rewrite Hconfig. unfold withRetry. apply retryLoop_ext. exact Hsame. }
  split; [|split].
  - intros ->. apply generateVideo_rejects. rewrite Hrun. reflexivity.
  - intros [->| ->]; apply generateVideo_rejects; rewrite Hrun; reflexivity.
  - intros H429 H408 H504 Hfinal. apply generateVideo_rejects. rewrite Hrun.
    unfold withRetry. cbn [retryLoop maxRetries defaultRetryConfig submitOnce].
    destruct (Nat.eqb_spec code 429); [contradiction|].
    destruct (Nat.eqb_spec code 408); [contradiction|].
    destruct (Nat.eqb_spec code 504); [contradiction|].
    cbn [orb]. rewrite Hfinal. reflexivity.
Qed.

Lemma generateVideo_retries_transient_statuses_witness :
  settledAs (generateVideo
               {| retryConfig := defaultRetryConfig; requestTimestamps := [] |}
               Scenario.throttled 0
               {| req_prompt := "p"; req_duration := 10; req_aspectRatio := None;
                  req_resolution := R1080p; req_fps := Fps30;
                  req_sourceVideoUrl := None |}) =
    Rejected (exhaustedError defaultRetryConfig "Sora2 API generateVideo"
                (Some (newError "RateLimitExceeded"))).
Proof.
  refine (proj1 (@generateVideo_retries_transient_statuses _ Scenario.throttled
                   0%Z _ 429%nat "{}" _ _) _).
  - reflexivity.
  - intros k. reflexivity.
  - reflexivity.
Defined.

End SubmitMore.

(* ------------------------------------------------------------------ *)
(** ** Generation pipeline: what a call returns and what it changes *)

Section PipelineMore.
Import Retry Sora2 Plan Generator.

Lemma planLoop_length request :
  forall remaining i acc plan,
    planLoop request remaining i acc = Fulfilled plan ->
    List.length plan = (List.length acc + remaining)%nat.
Proof.
  induction remaining as [|r IH]; intros i acc plan Hloop.
  - cbn in Hloop. injection Hloop as <-. lia.
  - cbn [planLoop] in Hloop.
    destruct (at_mod (allStylesOf request) i) as [style|]; [|discriminate].
    apply IH in Hloop. rewrite Hloop, length_app. cbn. lia.
Qed.

Ltac cases_of_scoreItem :=
  unfold scoreItem;
  repeat match goal with
         | |- context [match ?x with _ => _ end] => destruct x eqn:?
         end.

(** One pass through the loop body, whether it throws or not: the two
    lists keep what holds of their elements, and the ledger is only
    appended to, by entries of the price of one video. *)
Lemma scoreItem_preserves show cfg world request plans tally index response
      tally' thrown :
  scoreItem show cfg world request plans tally index response = (tally', thrown) ->
  (Forall (passedGate cfg request) (generated tally) ->
   Forall (passedGate cfg request) (generated tally')) /\
  (Forall knownFailure (failures tally) -> Forall knownFailure (failures tally')) /\
  CostTracker.monthlyBudget (ledger tally') = CostTracker.monthlyBudget (ledger tally) /\
  exists added,
    CostTracker.costs (ledger tally') = (CostTracker.costs (ledger tally) ++ added)%list /\
    Forall (fun entry =>
              CostTracker.amount entry =
                CostTracker.calculateVideoCost (durationOf request) (resolutionOf cfg))
           added.
Proof.
  cases_of_scoreItem; intros H; inversion H; subst; clear H;
    cbn [ledger generated failures CostTracker.recordCost fst
         CostTracker.monthlyBudget CostTracker.costs].
  all: split; [intros Hg; try assumption|].
  all: try (apply Forall_app; split; [assumption|];
            constructor; [|constructor];
            unfold passedGate, generatedAd; cbn;
            split; [apply Qltb_ge; assumption|split; reflexivity]).
  all: split; [intros Hf; try assumption|].
  all: try (apply Forall_app; split; [assumption|];
            constructor; [|constructor];
            (left; reflexivity) || (right; reflexivity)).
  all: split; [reflexivity|].
  all: try (exists []; rewrite app_nil_r; split; [reflexivity|constructor]).
  all: eexists; split; [reflexivity|]; constructor; [reflexivity|constructor].
Qed.

Lemma scoreLoop_preserves show cfg world request plans :
  forall responses tally index tally' thrown,
    scoreLoop show cfg world request plans tally index responses = (tally', thrown) ->
    (Forall (passedGate cfg request) (generated tally) ->
     Forall (passedGate cfg request) (generated tally')) /\
    (Forall knownFailure (failures tally) -> Forall knownFailure (failures tally')) /\
    CostTracker.monthlyBudget (ledger tally') = CostTracker.monthlyBudget (ledger tally) /\
    exists added,
      CostTracker.costs (ledger tally') = (CostTracker.costs (ledger tally) ++ added)%list /\
      Forall (fun entry =>
                CostTracker.amount entry =
                  CostTracker.calculateVideoCost (durationOf request) (resolutionOf cfg))
             added.
Proof.
  induction responses as [|response later IH]; intros tally index tally' thrown Hloop.
  - cbn in Hloop. inversion Hloop; subst.
    repeat split; auto. exists []. rewrite app_nil_r. split; [reflexivity|constructor].
  - cbn [scoreLoop] in Hloop.
    destruct (scoreItem show cfg world request plans tally index response)
      as [middle [e|]] eqn:Hitem.
    + inversion Hloop; subst. eapply scoreItem_preserves, Hitem.
    + apply scoreItem_preserves in Hitem.
      destruct Hitem as [Hg1 [Hf1 [Hb1 [added1 [Hc1 Ha1]]]]].
      apply IH in Hloop.
      destruct Hloop as [Hg2 [Hf2 [Hb2 [added2 [Hc2 Ha2]]]]].
      repeat split; auto; [congruence|].
      exists (added1 ++ added2)%list. split.
      * rewrite Hc2, Hc1, app_assoc. reflexivity.
      * apply Forall_app. split; assumption.
Qed.

(** X17. Whenever [generate] returns, the generated and the failed ads
    together are exactly as many as the ads requested. *)
Theorem generate_accounts_for_every_ad show self world request self' result :
  generate show self world request = (self', Fulfilled result) ->
  (List.length (generatedAds result) + List.length (failedAds result))%nat
    = numberOfAds request.
Proof.
  unfold generate.
  destruct (negb (isValid world)); [discriminate|].
  destruct (negb (isCompliant world)); [discriminate|].
  destruct (createGenerationPlan request) as [plans|e] eqn:Hplan; [|discriminate].
  destruct (settledAs _) as [responses|e] eqn:Hbatch; [|discriminate].
  destruct (scoreLoop _ _ _ _ _ _ _ _) as [tally [e|]] eqn:Hloop; [discriminate|].
  intros H. inversion H; subst; clear H. cbn [generatedAds failedAds].
  apply scoreLoop_accounts in Hloop. destruct Hloop as [_ [_ [_ [_ Hcount]]]].
  cbn [generated failures List.length Nat.add] in Hcount. rewrite Hcount.
  apply generateBatch_fulfilled in Hbatch; [|lia]. destruct Hbatch as [Hbatch _].
  rewrite Hbatch, length_map.
  apply planLoop_length in Hplan. cbn in Hplan. exact Hplan.
Qed.

(** X18. Every ad [generate] returns scored at least 70, carries as its
    cost the price of one video of the requested duration and configured
    resolution (at least the minimum charge), and every failure it
    returns is coded GenerationFailed or QualityTooLow. *)
Theorem generate_result_contents show self world request self' result :
  generate show self world request = (self', Fulfilled result) ->
  Forall (passedGate (config self) request) (generatedAds result) /\
  Forall (fun ad => 5 <= cost (ad_metadata ad)) (generatedAds result) /\
  Forall knownFailure (failedAds result).
Proof.
  unfold generate.
  destruct (negb (isValid world)); [discriminate|].
  destruct (negb (isCompliant world)); [discriminate|].
  destruct (createGenerationPlan request) as [plans|e] eqn:Hplan; [|discriminate].
  destruct (settledAs _) as [responses|e] eqn:Hbatch; [|discriminate].
  destruct (scoreLoop _ _ _ _ _ _ _ _) as [tally [e|]] eqn:Hloop; [discriminate|].
  intros H. inversion H; subst; clear H. cbn [generatedAds failedAds].
  apply scoreLoop_preserves in Hloop. destruct Hloop as [Hg [Hf _]].
  cbn [generated failures] in *.
  assert (Hgate : Forall (passedGate (config self) request) (generated tally))
    by (apply Hg; constructor).
  split; [exact Hgate|]. split; [|apply Hf; constructor].
  eapply Forall_impl; [|exact Hgate].
  intros ad [_ [Hcost _]]. rewrite Hcost.
  apply calculateVideoCost_at_least_minimum.
Qed.

Lemma generate_result_contents_witness :
  exists self' result,
    generate Scenario.showWhole Scenario.freshInstance
      (Scenario.scoredCall 85) (Scenario.adsRequest 2) = (self', Fulfilled result) /\
    Forall (fun ad => 5 <= cost (ad_metadata ad)) (generatedAds result).
Proof.
  eexists. eexists. split; [vm_compute; reflexivity|].
  refine (proj1 (proj2 (@generate_result_contents Scenario.showWhole
            Scenario.freshInstance (Scenario.scoredCall 85) (Scenario.adsRequest 2)
            _ _ _))).
  vm_compute. reflexivity.
Defined.

(** X19. Whatever a call of [generate] does, and however it ends, it leaves
    the configuration and the monthly budget alone and only appends to the
    cost history, each appended entry being of the price of one video. *)
Theorem generate_only_appends_to_ledger show self world request :
  config (fst (generate show self world request)) = config self /\
  CostTracker.monthlyBudget (costTracker (fst (generate show self world request)))
    = CostTracker.monthlyBudget (costTracker self) /\
  exists added,
    CostTracker.costs (costTracker (fst (generate show self world request)))
      = (CostTracker.costs (costTracker self) ++ added)%list /\
    Forall (fun entry =>
              CostTracker.amount entry =
                CostTracker.calculateVideoCost (durationOf request)
                  (resolutionOf (config self)))
           added.
Proof.
  assert (Hsame : forall inst : Instance,
            config inst = config self -> costTracker inst = costTracker self ->
            config inst = config self /\
            CostTracker.monthlyBudget (costTracker inst)
              = CostTracker.monthlyBudget (costTracker self) /\
            exists added,
              CostTracker.costs (costTracker inst)
                = (CostTracker.costs (costTracker self) ++ added)%list /\
              Forall (fun entry =>
                        CostTracker.amount entry =
                          CostTracker.calculateVideoCost (durationOf request)
                            (resolutionOf (config self)))
                     added).
  { intros inst Hc Ht. rewrite Hc, Ht. repeat split.
    exists []. rewrite app_nil_r. split; [reflexivity|constructor]. }
  unfold generate.
  destruct (negb (isValid world)); [apply Hsame; reflexivity|].
  destruct (negb (isCompliant world)); [apply Hsame; reflexivity|].
  destruct (createGenerationPlan request) as [plans|e]; [|apply Hsame; reflexivity].
  destruct (settledAs _) as [responses|e]; [|apply Hsame; reflexivity].
  destruct (scoreLoop _ _ _ _ _ _ _ _) as [tally thrown] eqn:Hloop.
  apply scoreLoop_preserves in Hloop. destruct Hloop as [_ [_ [Hb Hadded]]].
  cbn [ledger] in *.
  destruct thrown; cbn [fst config costTracker];
    (split; [reflexivity|]; split; [exact Hb|exact Hadded]).
Qed.

Lemma planLoop_without_ratios request :
  targetAspectRatio request = [] ->
  forall remaining i acc plan,
    planLoop request remaining i acc = Fulfilled plan ->
    Forall (fun p => plan_aspectRatio p = None) acc ->
    Forall (fun p => plan_aspectRatio p = None) plan.
Proof.
  intros Hempty.
  induction remaining as [|r IH]; intros i acc plan Hloop Hacc.
  - cbn in Hloop. injection Hloop as <-. exact Hacc.
  - cbn [planLoop] in Hloop.
    destruct (at_mod (allStylesOf request) i) as [style|]; [|discriminate].
    eapply IH; [exact Hloop|].
    apply Forall_app. split; [exact Hacc|].
    constructor; [|constructor]. cbn. rewrite Hempty. reflexivity.
Qed.

(** X20. With an empty [targetAspectRatio] array the plans carry no aspect
    ratio, and when the first response comes back with a video and a score
    of 70 or more, [generate] first records the cost of that ad and then
    throws the TypeError of [undefined.replace]: the call rejects and the
    ledger keeps the charge. *)
Theorem generate_charges_then_throws_without_ratio
    show self world request plans first others videoUrl :
  isValid world = true ->
  isCompliant world = true ->
  targetAspectRatio request = [] ->
  createGenerationPlan request = Fulfilled plans ->
  settledAs (generateBatch (taskWorld world) (batchClock world) (apiClient self)
               (map (toSora2Request (config self) request) plans) 3)
    = Fulfilled (first :: others) ->
  truthy (resp_videoUrl first) = Some videoUrl ->
  70 <= overall (qualityOf world 0) ->
  snd (generate show self world request) = Rejected undefinedReplace /\
  CostTracker.costs (costTracker (fst (generate show self world request))) =
    (CostTracker.costs (costTracker self) ++
     [{| CostTracker.timestamp := recordClock world 0;
         CostTracker.amount :=
           CostTracker.calculateVideoCost (durationOf request)
             (resolutionOf (config self));
         CostTracker.description := costDescription 0 |}])%list.
Proof.
  intros Hvalid Hpolicy Hempty Hplan Hbatch Hurl Hscore.
  unfold generate. rewrite Hvalid, Hpolicy, Hplan. cbn [negb]. rewrite Hbatch.
  pose proof Hbatch as Hdone.
  apply generateBatch_fulfilled in Hdone; [|lia].
  destruct Hdone as [Hlen Hcompleted].
  rewrite length_map in Hlen.
  destruct plans as [|plan0 plans']; [cbn in Hlen; discriminate|].
  assert (Hnone : plan_aspectRatio plan0 = None).
  { unfold createGenerationPlan in Hplan.
    eapply planLoop_without_ratios in Hplan; [|exact Hempty|constructor].
    inversion Hplan; assumption. }
  assert (Hstatus : resp_status first = completed) by (inversion Hcompleted; assumption).
  apply Qltb_ge in Hscore.
  cbn [scoreLoop]. unfold scoreItem. cbn [at_index nth_error].
  rewrite Hstatus, Hurl, Hscore, Hnone.
  cbn [ledger fst snd costTracker CostTracker.recordCost CostTracker.costs].
  split; reflexivity.
Qed.

Lemma generate_accounts_for_every_ad_witness :
  exists self' result,
    generate Scenario.showWhole Scenario.freshInstance
      (Scenario.scoredCall 60) (Scenario.adsRequest 4) = (self', Fulfilled result) /\
    (List.length (generatedAds result) + List.length (failedAds result))%nat = 4%nat.
Proof.
  eexists. eexists. split; [vm_compute; reflexivity|].
  refine (@generate_accounts_for_every_ad Scenario.showWhole Scenario.freshInstance
            (Scenario.scoredCall 60) (Scenario.adsRequest 4) _ _ _).
  vm_compute. reflexivity.
Defined.

Lemma generate_charges_then_throws_without_ratio_witness :
  snd (generate Scenario.showWhole Scenario.freshInstance
         (Scenario.scoredCall 85) Scenario.noRatioRequest)
    = Rejected undefinedReplace /\
  List.length
    (CostTracker.costs
       (costTracker (fst (generate Scenario.showWhole Scenario.freshInstance
                            (Scenario.scoredCall 85) Scenario.noRatioRequest))))
    = 1%nat.
Proof.
  destruct (@generate_charges_then_throws_without_ratio Scenario.showWhole
              Scenario.freshInstance (Scenario.scoredCall 85) Scenario.noRatioRequest
              _ _ _ "https://cdn/video.mp4"%string
              eq_refl eq_refl eq_refl eq_refl eq_refl eq_refl) as [Hthrown Hcosts].
  - discriminate.
  - split; [exact Hthrown|]. rewrite Hcosts. reflexivity.
Defined.

End PipelineMore.

(* ------------------------------------------------------------------ *)
(** ** Ad ids and plans at the edges *)

Section IdsAndPlans.
Import Templates Plan Generator.

Lemma uint_of_zeros k digits :
  NilEmpty.uint_of_string
    (string_of_list_ascii (repeat "0"%char k) ++ digits)%string
  = option_map (Nat.iter k Decimal.D0) (NilEmpty.uint_of_string digits).
Proof.
  induction k as [|k IH].
  - cbn. destruct (NilEmpty.uint_of_string digits); reflexivity.
  - cbn [repeat string_of_list_ascii append NilEmpty.uint_of_string Nat.iter].
    rewrite IH. destruct (NilEmpty.uint_of_string digits); reflexivity.
Qed.

Lemma of_uint_zeros k d : Nat.of_uint (Nat.iter k Decimal.D0 d) = Nat.of_uint d.
Proof.
  induction k as [|k IH]; [reflexivity|].
  cbn [Nat.iter]. rewrite <- IH. reflexivity.
Qed.

(** X21. The number in an ad id reads back as the index plus one, however
    many digits it has; so different indices give different ids. *)
Theorem adId_reads_back :
  (forall index, readAdId (adId index) = Some (index + 1)%nat) /\
  (forall i j, adId i = adId j -> i = j).
Proof.
  assert (Hread : forall index, readAdId (adId index) = Some (index + 1)%nat).
  { intros index. unfold adId, padStart, readAdId, showNat.
    cbn [append].
    rewrite uint_of_zeros, NilEmpty.usu. cbn [option_map].
    rewrite of_uint_zeros, DecimalNat.Unsigned.of_to. reflexivity. }
  split; [exact Hread|].
  intros i j Heq.
  pose proof (Hread i) as Hi. rewrite Heq, Hread in Hi.
  injection Hi as Hi. lia.
Qed.

Lemma adId_reads_back_witness : adId 0 <> adId 9.
Proof.
  intros H. apply (proj2 adId_reads_back) in H. discriminate H.
Defined.

Lemma at_mod_empty A i : at_mod (@nil A) i = None.
Proof. reflexivity. Qed.

(** X22. [createGenerationPlan] returns the empty plan when no ad is
    requested; with at least one ad and an empty style array it throws
    the TypeError of [undefined.replace]; with styles but an empty
    aspect-ratio array it returns plans none of which has an aspect
    ratio. *)
Theorem createGenerationPlan_edges request :
  (numberOfAds request = 0%nat -> createGenerationPlan request = Fulfilled []) /\
  ((0 < numberOfAds request)%nat -> allStylesOf request = [] ->
     createGenerationPlan request = Rejected undefinedReplace) /\
  (allStylesOf request <> [] -> targetAspectRatio request = [] ->
     exists plan,
       createGenerationPlan request = Fulfilled plan /\
       List.length plan = numberOfAds request /\
       Forall (fun p => plan_aspectRatio p = None) plan).
Proof.
  unfold createGenerationPlan. split; [|split].
  - intros ->. reflexivity.
  - intros Hpos Hempty. destruct (numberOfAds request) as [|n]; [lia|].
    cbn [planLoop]. rewrite Hempty, at_mod_empty. reflexivity.
  - intros Hstyles Hempty.
    destruct (@planLoop_appends request Hstyles (numberOfAds request) 0%nat [])
      as [plan [Hloop [Hlen _]]].
    cbn [app] in Hloop. exists plan. split; [exact Hloop|]. split; [exact Hlen|].
    eapply planLoop_without_ratios; [exact Hempty|exact Hloop|constructor].
Qed.

Lemma createGenerationPlan_edges_witness :
  createGenerationPlan
    {| sourceVideo := "v.mp4"; numberOfAds := 2; targetAspectRatio := [Ratio1x1];
       ugcStyle := Some []; duration := None; requestPrompts := None |}
  = Rejected undefinedReplace.
Proof.
  apply (proj1 (proj2 (createGenerationPlan_edges _))).
  - cbn. lia.
  - reflexivity.
Defined.

End IdsAndPlans.

(* ------------------------------------------------------------------ *)
(** ** Prompt templates *)

Section TemplateMore.
Import Templates BatchPrompts.
Local Open Scope string_scope.

Lemma prefix_self_app s rest : String.prefix s (s ++ rest) = true.
Proof.
  induction s as [|c s IH]; [destruct rest; reflexivity|].
  cbn. destruct (ascii_dec c c); [exact IH|congruence].
Qed.

Lemma prefix_app_l sub : forall s rest,
  String.prefix sub s = true -> String.prefix sub (s ++ rest) = true.
Proof.
  induction sub as [|c sub IH]; intros s rest H; [destruct (s ++ rest); reflexivity|].
  destruct s as [|d s]; [discriminate|].
  cbn in *. destruct (ascii_dec c d); [apply IH, H|discriminate].
Qed.

Lemma includes_app_l s : forall sub rest,
  includes s sub = true -> includes (s ++ rest) sub = true.
Proof.
  induction s as [|c s IH]; intros sub rest H.
  - cbn in H. rewrite orb_false_r in H.
    destruct sub; [|discriminate]. destruct rest; reflexivity.
  - cbn [includes] in H. apply orb_true_iff in H.
    cbn [append includes]. apply orb_true_iff.
    destruct H as [H|H]; [left|right; apply IH, H].
    change (String c (s ++ rest)) with (String c s ++ rest).
    apply prefix_app_l, H.
Qed.

Lemma includes_self_app s rest : includes (s ++ rest) s = true.
Proof.
  destruct s as [|c s]; [destruct rest; reflexivity|].
  cbn [append includes]. change (String c (s ++ rest)) with (String c s ++ rest).
  rewrite prefix_self_app. reflexivity.
Qed.

Lemma expandDollars_dollarFree matched before after replacement :
  dollarFree replacement = true ->
  expandDollars matched before after replacement = replacement.
Proof.
  induction replacement as [|c rest IH]; intros Hfree; [reflexivity|].
  cbn [dollarFree] in Hfree. apply andb_true_iff in Hfree.
  destruct Hfree as [Hc Hrest].
  cbn [expandDollars].
  destruct (Ascii.eqb c "$"); [discriminate|].
  rewrite IH by exact Hrest. reflexivity.
Qed.

(** X23. Every template holds the placeholder, and [buildPrompt] puts in
    the place of its first occurrence what [replace] makes of the product
    description, leaving the rest of the template as it is; additional
    prompts, if any, follow after ". ", joined by ". ". A product
    description without a dollar sign is put in as it is, and therefore
    occurs in the prompt. One with a dollar sign need not: for the
    description [$&] the prompt is the template, placeholder included. *)
Theorem buildPrompt_substitutes_product style :
  exists before after,
    ugcPromptTemplates style = before ++ "{product}" ++ after /\
    (forall product,
       buildPrompt style product None =
       before ++ expandDollars "{product}" before after product ++ after) /\
    (forall product,
       buildPrompt style product (Some []) = buildPrompt style product None) /\
    (forall product first more,
       buildPrompt style product (Some (first :: more)) =
       buildPrompt style product None ++ ". " ++ String.concat ". " (first :: more)) /\
    (forall product, dollarFree product = true ->
       buildPrompt style product None = before ++ product ++ after) /\
    (forall product extras, dollarFree product = true ->
       includes (buildPrompt style product extras) product = true) /\
    buildPrompt style "$&" None = ugcPromptTemplates style.
Proof.
  exists (substring 0 (placeholderAt (ugcPromptTemplates style)) (ugcPromptTemplates style)).
  exists (substring (placeholderAt (ugcPromptTemplates style) + 9)
                    (String.length (ugcPromptTemplates style))
                    (ugcPromptTemplates style)).
  set (before := substring 0 (placeholderAt (ugcPromptTemplates style))
                   (ugcPromptTemplates style)).
  set (after := substring (placeholderAt (ugcPromptTemplates style) + 9)
                  (String.length (ugcPromptTemplates style))
                  (ugcPromptTemplates style)).
  assert (Hnone : forall product,
            buildPrompt style product None =
            before ++ expandDollars "{product}" before after product ++ after).
  { intros product. subst before after. destruct style; reflexivity. }
  assert (Hplain : forall product, dollarFree product = true ->
            buildPrompt style product None = before ++ product ++ after).
  { intros product Hfree. rewrite Hnone, expandDollars_dollarFree by exact Hfree.
    reflexivity. }
  split; [subst before after; destruct style; reflexivity|].
  split; [exact Hnone|].
  split; [reflexivity|].
  split; [reflexivity|].
  split; [exact Hplain|].
  split; [|destruct style; reflexivity].
  intros product extras Hfree.
  assert (Hin : includes (buildPrompt style product None) product = true).
  { rewrite Hplain by exact Hfree. apply includes_app_r, includes_self_app. }
  destruct extras as [[|first more]|]; try exact Hin.
  change (buildPrompt style product (Some (first :: more)))
    with (buildPrompt style product None ++ ". " ++ String.concat ". " (first :: more)).
  apply includes_app_l, Hin.
Qed.

Lemma prefix_refl s : String.prefix s s = true.
Proof.
  induction s as [|c s IH]; [reflexivity|].
  cbn. destruct (ascii_dec c c); [exact IH|congruence].
Qed.

(** X24. The options of [buildVariedPrompt] only append: the prompt of
    [buildPrompt] is the beginning of the varied prompt, which is that
    prompt itself when no tone, framing or pacing is given. *)
Theorem buildVariedPrompt_extends style product options :
  String.prefix (buildPrompt style product (additionalPrompts options))
                (buildVariedPrompt style product options) = true /\
  (tone options = None -> framing options = None -> pacing options = None ->
     buildVariedPrompt style product options
       = buildPrompt style product (additionalPrompts options)).
Proof.
  unfold buildVariedPrompt. split.
  - destruct (tone options), (framing options), (pacing options);
      repeat apply prefix_app_l; apply prefix_refl.
  - intros -> -> ->. reflexivity.
Qed.

Lemma buildVariedPrompt_extends_witness :
  buildVariedPrompt casual "lamp"
    {| tone := None; framing := None; pacing := None; additionalPrompts := None |}
  = buildPrompt casual "lamp" None.
Proof.
  apply (proj2 (buildVariedPrompt_extends casual "lamp"
                  {| tone := None; framing := None; pacing := None;
                     additionalPrompts := None |})); reflexivity.
Defined.

Lemma styleEqb_eq a b : styleEqb a b = true <-> a = b.
Proof. destruct a, b; cbn; split; intros H; congruence. Qed.

Lemma buildBatchPrompts_from styles product key :
  forall start : PromptRecord,
    fold_left
      (fun prompts style => setPrompt prompts style (buildPrompt style product None))
      styles start key =
    if existsb (styleEqb key) styles
    then Some (buildPrompt key product None)
    else start key.
Proof.
  induction styles as [|style rest IH]; intros start; [reflexivity|].
  cbn [fold_left existsb]. rewrite IH. unfold setPrompt.
  destruct (existsb (styleEqb key) rest); [rewrite orb_true_r; reflexivity|].
  rewrite orb_false_r.
  destruct (styleEqb key style) eqn:Heq; [|reflexivity].
  apply styleEqb_eq in Heq. subst. reflexivity.
Qed.

(** X25. The record [buildBatchPrompts] returns holds, for each style in
    the list, the prompt [buildPrompt] builds for it (listing a style
    twice changes nothing), and holds nothing for a style that is not in
    the list. *)
Theorem buildBatchPrompts_lookup styles product key :
  (In key styles ->
     buildBatchPrompts styles product key = Some (buildPrompt key product None)) /\
  (~ In key styles -> buildBatchPrompts styles product key = None).
Proof.
  unfold buildBatchPrompts. rewrite buildBatchPrompts_from.
  destruct (existsb (styleEqb key) styles) eqn:Hex.
  - split; [reflexivity|]. intros Hnot. exfalso. apply Hnot.
    apply existsb_exists in Hex. destruct Hex as [x [Hin Heq]].
    apply styleEqb_eq in Heq. subst. exact Hin.
  - split; [|reflexivity]. intros Hin. exfalso.
    apply not_true_iff_false in Hex. apply Hex.
    apply existsb_exists. exists key. split; [exact Hin|]. apply styleEqb_eq. reflexivity.
Qed.

Lemma buildBatchPrompts_lookup_witness :
  buildBatchPrompts [casual; tutorial; casual] "lamp" tutorial
    = Some (buildPrompt tutorial "lamp" None) /\
  buildBatchPrompts [casual; tutorial; casual] "lamp" unboxing = None.
Proof.
  split.
  - apply (proj1 (buildBatchPrompts_lookup [casual; tutorial; casual] "lamp" tutorial)).
    right. left. reflexivity.
  - apply (proj2 (buildBatchPrompts_lookup [casual; tutorial; casual] "lamp" unboxing)).
    intros [H|[H|[H|[]]]]; discriminate H.
Defined.

End TemplateMore.

(* ------------------------------------------------------------------ *)
(** ** Content policy checker *)

Section PolicyMore.
Import Policy.



End PolicyMore.

(* ------------------------------------------------------------------ *)
(** ** Quality scorer *)

Section QualityMore.
Import Quality.

(** X27. Whatever the random draws, the overall score lies between 0 and
    100 and is fixed by the three part scores: it is
    max(0, videoQuality + ugcAuthenticity + adEffectiveness - 180); the
    points of the listed deductions add up to 280 minus the sum of the
    part scores; at most six deductions are listed; and the overall score
    reaches 70 exactly when the deductions add up to at most 30. *)
Theorem score_is_fixed_by_parts draws :
  0 <= overall (score draws) <= 100 /\
  overall (score draws) ==
    Qmax 0 (videoQuality (score draws) + ugcAuthenticity (score draws)
            + adEffectiveness (score draws) - 180) /\
  totalDeductions (deductions (score draws)) ==
    280 - (videoQuality (score draws) + ugcAuthenticity (score draws)
           + adEffectiveness (score draws)) /\
  (List.length (deductions (score draws)) <= 6)%nat /\
  (70 <= overall (score draws) <->
   totalDeductions (deductions (score draws)) <= 30).
Proof.
  unfold score, evaluateVideoQuality, evaluateUGCAuthenticity, evaluateAdEffectiveness.
  destruct (Qgtb (drawNoise draws) (8 # 10)),
           (Qgtb (drawBlur draws) (9 # 10)),
           (Qgtb (drawProfessional draws) (9 # 10)),
           (Qgtb (drawLowQuality draws) (95 # 100)),
           (Qgtb (drawVisibility draws) (85 # 100)),
           (Qgtb (drawMessage draws) (9 # 10));
    vm_compute;
    (repeat split; try discriminate; try reflexivity; try lia;
     try (intros H; exfalso; apply H; reflexivity)).
Qed.

End QualityMore.

(* ------------------------------------------------------------------ *)
(** ** Video validator *)

Section ValidatorMore.
Import Validator.

(** X28. [validate] returns a result whenever [stat] succeeds, and also
    when [stat] fails with an error the logger can print (an [Error]
    instance, as [stat] throws them). A result is valid exactly when it
    lists no error, and carries the video information exactly when it is
    valid. The result is valid exactly when [stat] succeeded, the file is
    no larger than 500 MB, the lower-cased extension is mp4, mov or webm,
    ffprobe gave the video information, and none of the three tests
    duration > 20, width < 1280, height < 720 holds. A value that is NaN
    passes these tests: a video for which ffprobe reports no duration and
    no dimensions is accepted when its size and extension are. *)
Theorem validate_accepts_exactly show fixed number filePath stats probed :
  (forall size, stats = Fulfilled size ->
     exists result, validate show fixed number filePath stats probed = Fulfilled result) /\
  (forall error, stats = Rejected error -> loggerErrorThrows error = None ->
     validate show fixed number filePath stats probed =
     Fulfilled {| isValid := false;
                  errors := [("検証エラー: " ++ messageOrString error)%string];
                  videoInfo := None |}) /\
  (forall result,
     validate show fixed number filePath stats probed = Fulfilled result ->
     (isValid result = true <-> errors result = []) /\
     (isValid result = true <-> videoInfo result <> None) /\
     (isValid result = true <->
      exists size info,
        stats = Fulfilled size /\ probed = Some info /\
        videoInfo result = Some info /\
        (size <= 500 * 1024 * 1024)%Z /\
        stringIn (extensionOf filePath) ["mp4"; "mov"; "webm"]%string = true /\
        greaterThan (info_duration info) 20 = false /\
        lessThan (widthOf number info) 1280 = false /\
        lessThan (heightOf number info) 720 = false)) /\
  (forall size info,
     stats = Fulfilled size -> probed = Some info ->
     (size <= 500 * 1024 * 1024)%Z ->
     stringIn (extensionOf filePath) ["mp4"; "mov"; "webm"]%string = true ->
     info_duration info = NaN ->
     widthOf number info = NaN -> heightOf number info = NaN ->
     validate show fixed number filePath stats probed =
     Fulfilled {| isValid := true; errors := []; videoInfo := Some info |}).
Proof.
  unfold validate. cbn [VALIDATION_CONFIG maxFileSize supportedFormats maxDuration
                        minWidth minHeight].
  destruct stats as [size|error].
  2: { split; [intros size H; discriminate H|].
       split; [intros e H Hprints; injection H as <-; rewrite Hprints; reflexivity|].
       split; [|intros size info H; discriminate H].
       intros result Hres.
       destruct (loggerErrorThrows error); [discriminate Hres|].
       injection Hres as <-. cbn [isValid errors videoInfo].
       repeat split; try discriminate; try congruence.
       intros [size [info [H _]]]. discriminate H. }
  split; [intros size' _; destruct probed; eexists; reflexivity|].
  split; [intros e H; discriminate H|].
  destruct probed as [info|].
  2: { split; [|intros size' info _ H; discriminate H].
       intros result Hres. injection Hres as <-.
       cbn [isValid errors videoInfo]. repeat split; try discriminate; try congruence.
       - intros H. destruct (_ ++ _)%list eqn:Hl in H; [|discriminate].
         apply app_eq_nil in Hl. destruct Hl; discriminate.
       - intros [s' [info [_ [H _]]]]. discriminate. }
  destruct (Z.ltb_spec (500 * 1024 * 1024) size) as [Hbig|Hsmall];
  destruct (stringIn (extensionOf filePath) ["mp4"; "mov"; "webm"]%string) eqn:Hext;
  destruct (String.eqb (extensionOf filePath) EmptyString) eqn:Hempty;
  try (apply String.eqb_eq in Hempty; rewrite Hempty in Hext; discriminate Hext);
  destruct (greaterThan (info_duration info) 20) eqn:Hlong;
  destruct (lessThan (widthOf number info) 1280) eqn:Hwidth;
  destruct (lessThan (heightOf number info) 720) eqn:Hheight;
  cbn [negb orb app List.length Nat.eqb];
  (split;
   [ intros result Hres; injection Hres as <-;
     cbn [isValid errors videoInfo];
     repeat split; try discriminate; try congruence;
     try (intros [s' [i' [Hs [Hp [Hv [Hsize [Hfmt [Hd [Hw Hh]]]]]]]]];
          injection Hs as <-; injection Hp as <-;
          try discriminate; try congruence; try lia);
     try (intros _; exists size, info;
          repeat split; try reflexivity; try assumption; lia)
   | intros size' info' Hs Hp Hsize Hfmt Hd Hw Hh;
     injection Hs as <-; injection Hp as <-;
     try lia; try discriminate Hfmt;
     rewrite ?Hd, ?Hw, ?Hh in *; cbn [greaterThan lessThan] in *;
     try discriminate; reflexivity ]).
Qed.

(** A clip for which ffprobe reports neither duration nor dimensions:
    the resolution reads [undefinedxundefined]. *)
Lemma validate_accepts_exactly_witness :
  validate (fun _ => "NaN"%string) (fun _ => "0.00"%string) (fun _ => NaN)
    "clip.mp4" (Fulfilled 1000%Z)
    (Some {| info_duration := NaN; info_resolution := "undefinedxundefined";
             info_fileSize := Finite 1000; info_format := "mp4";
             info_fps := Finite 30 |})
  = Fulfilled
      {| isValid := true; errors := [];
         videoInfo :=
           Some {| info_duration := NaN; info_resolution := "undefinedxundefined";
                   info_fileSize := Finite 1000; info_format := "mp4";
                   info_fps := Finite 30 |} |}.
Proof.
  apply (proj2 (proj2 (proj2
    (@validate_accepts_exactly (fun _ => "NaN"%string) (fun _ => "0.00"%string)
       (fun _ => NaN) "clip.mp4"%string (Fulfilled 1000%Z)
       (Some {| info_duration := NaN; info_resolution := "undefinedxundefined";
                info_fileSize := Finite 1000; info_format := "mp4";
                info_fps := Finite 30 |})))) 1000%Z _ eq_refl eq_refl).
  - lia.
  - reflexivity.
  - reflexivity.
  - reflexivity.
  - reflexivity.
Defined.

Lemma lastSegment_app s1 : forall s2 acc,
  lastSegment (s1 ++ s2) acc = lastSegment s2 (lastSegment s1 acc).
Proof.
  induction s1 as [|c s1 IH]; intros s2 acc; [reflexivity|].
  cbn [append lastSegment].
  destruct c as [[] [] [] [] [] [] [] []]; apply IH.
Qed.

Lemma lastSegment_dotFree s : forall acc,
  dotFree s = true -> lastSegment s acc = (acc ++ s)%string.
Proof.
  induction s as [|c s IH]; intros acc Hfree.
  - cbn. clear. induction acc as [|a acc IH]; [reflexivity|]. cbn. rewrite <- IH. reflexivity.
  - cbn [dotFree lastSegment] in *.
    destruct c as [[] [] [] [] [] [] [] []]; try discriminate;
      rewrite IH by exact Hfree;
      clear; (induction acc as [|a acc IHa]; [reflexivity|]; cbn; rewrite <- IHa; reflexivity).
Qed.

(** X29. The extension [validate] looks at is what follows the last dot of
    the path, lower-cased: for a path [base.EXT] with no dot in [EXT] it
    is [EXT] in lower case, so that clip.MP4 counts as mp4. A path without
    any dot is its own extension. *)
Theorem extensionOf_after_last_dot :
  (forall base ext,
     dotFree ext = true ->
     extensionOf (base ++ "." ++ ext) = toLowerCase ext) /\
  (forall path, dotFree path = true -> extensionOf path = toLowerCase path) /\
  extensionOf "videos/v1.0/clip.MP4" = "mp4"%string.
Proof.
  split; [|split; [|reflexivity]].
  - intros base ext Hfree. unfold extensionOf.
    rewrite lastSegment_app. cbn [append lastSegment].
    rewrite lastSegment_dotFree by exact Hfree. reflexivity.
  - intros path Hfree. unfold extensionOf.
    rewrite lastSegment_dotFree by exact Hfree. reflexivity.
Qed.

Lemma extensionOf_after_last_dot_witness :
  extensionOf ("a.b" ++ "." ++ "MOV") = "mov"%string.
Proof.
  rewrite (proj1 extensionOf_after_last_dot "a.b"%string "MOV"%string eq_refl).
  reflexivity.
Defined.

End ValidatorMore.
